(** * Lightwood: the GluonTS forecasting mixer and the encoder registry

    A shallow embedding of [lightwood/mixer/gluonts.py] (the [EarlyStop]
    training callback and the [GluonTSMixer] class) and of
    [lightwood/encoders/__init__.py] (the registry of built-in encoders),
    together with the properties their specification states about them.

    Conventions.
    - A raised Python exception is the result [None]; what the process
      looks like after an exception is not modelled.
    - Python objects that are shared by reference (pandas data frames) live
      in a heap of frames and are named by their location.
    - The third-party operations the mixer delegates to and whose result
      is not settled by their documentation alone (pandas sorting by index
      and resampling, the GluonTS estimator and predictor) are parameters
      of the development; [Pandas] gives one executable instance of them
      for running the definitions on concrete tables. *)

From Stdlib Require Import ZArith QArith String List Bool Lia Permutation Sorted.
From stdpp Require Import base numbers list strings option gmap.

Local Open Scope string_scope.
Local Open Scope list_scope.
Local Open Scope Z_scope.

Set Warnings "-register-all".

(* ===================================================================== *)
(** * The early-stop policy ([class EarlyStop(TrainingHistory)])          *)
(* ===================================================================== *)

Module EarlyStop.
Section Policy.
(** The type of the recorded losses and Python's [>] on it.  Nothing is
    assumed of [gt]: on floats it is not even a total order (NaN). *)
Context {loss : Type}.
Variable gt : loss -> loss -> bool.

Record t : Type := Build
  { patience : Z;
    counter : Z;
    validation_loss_history : list loss }.

(** [__init__(self, patience=3)] *)
Definition __init__ (patience : Z) : t :=
  {| patience := Z.max 1 patience;
     counter := 0;
     validation_loss_history := [] |}.

(** GluonTS's [TrainingHistory.on_validation_epoch_end]: the loss of the
    epoch is appended to the history. *)
Definition super_on_validation_epoch_end (self : t) (epoch_loss : loss) : t :=
  {| patience := patience self;
     counter := counter self;
     validation_loss_history := validation_loss_history self ++ [epoch_loss] |}.

Definition set_counter (self : t) (c : Z) : t :=
  {| patience := patience self;
     counter := c;
     validation_loss_history := validation_loss_history self |}.

(** [on_validation_epoch_end]: the new state and the returned flag
    ([true]: keep training). *)
Definition on_validation_epoch_end (self : t) (epoch_loss : loss) : t * bool :=
  let self := super_on_validation_epoch_end self epoch_loss in
  let self :=
    if (1 <? length (validation_loss_history self))%nat then
      match rev (validation_loss_history self) with
      | last :: before :: _ =>
          if gt last before
          then set_counter self (counter self + 1)
          else set_counter self 0
      | _ => self
      end
    else self in
  if counter self >=? patience self then (self, false) else (self, true).

(** A training run: the callback is called once per validation epoch. *)
Definition epochs (self : t) (losses : list loss) : t :=
  fold_left (fun s x => fst (on_validation_epoch_end s x)) losses self.

(** Specification side: the number of consecutive worsening epochs at
    the end of a history, read from its most recent loss backwards. *)
Fixpoint worsening_run (newest_first : list loss) : nat :=
  match newest_first with
  | last :: (before :: _) as older =>
      if gt last before then S (worsening_run older) else O
  | _ => O
  end.

End Policy.
End EarlyStop.

(* ===================================================================== *)
(** * Data frames                                                         *)
(* ===================================================================== *)

(** A cell of a table.  Numbers are integers, as the cells of an integer
    column are; [VNaN] is the missing value. *)
Inductive Value : Type :=
  | VNum (z : Z)
  | VStr (s : string)
  | VNaN.

#[global] Instance Value_eq_dec : EqDecision Value.
Proof. solve_decision. Defined.

(** A row carries its label in the frame's index and one cell per column. *)
Record Row : Type := MkRow
  { label : Z;
    cells : list Value }.

#[global] Instance Row_eq_dec : EqDecision Row.
Proof. solve_decision. Defined.

Record Frame : Type := MkFrame
  { columns : list string;
    rows : list Row }.

#[global] Instance Frame_eq_dec : EqDecision Frame.
Proof. solve_decision. Defined.

Fixpoint col_index (c : string) (cols : list string) : option nat :=
  match cols with
  | [] => None
  | c' :: cols' =>
      if decide (c = c') then Some O else S <$> col_index c cols'
  end.

Definition cell_at (i : nat) (r : Row) : Value := default VNaN (cells r !! i).

(** [df[c]]: the values of one column, [KeyError] when it is missing. *)
Definition column (c : string) (f : Frame) : option (list Value) :=
  i ← col_index c (columns f);
  Some (map (cell_at i) (rows f)).

(** [df[keep_cols]]: a new frame with the listed columns, in that order. *)
Definition select_columns (keep_cols : list string) (f : Frame) : option Frame :=
  positions ← mapM (fun c => col_index c (columns f)) keep_cols;
  Some {| columns := keep_cols;
          rows := map (fun r => {| label := label r;
                                   cells := map (fun i => cell_at i r) positions |})
                      (rows f) |}.

(** [df[df[c].isin(groups)]]; [isin] refuses a [groups] that is [None]. *)
Definition isin_rows (c : string) (groups : option (list Value)) (f : Frame)
  : option Frame :=
  i ← col_index c (columns f);
  gs ← groups;
  Some {| columns := columns f;
          rows := List.filter (fun r => bool_decide (cell_at i r ∈ gs)) (rows f) |}.

(** [Series.unique()]: the distinct values in order of first appearance. *)
Fixpoint unique_from (seen : list Value) (vs : list Value) : list Value :=
  match vs with
  | [] => []
  | v :: vs' =>
      if bool_decide (v ∈ seen) then unique_from seen vs'
      else v :: unique_from (v :: seen) vs'
  end.

Definition unique (vs : list Value) : list Value := unique_from [] vs.

(** [pd.concat([a, b])]: the rows of [a] then those of [b], over the union
    of the columns (those of [a] first); a cell a frame lacks is NaN. *)
Definition relayout (from to : list string) (r : Row) : Row :=
  {| label := label r;
     cells := map (fun c => match col_index c from with
                            | Some i => cell_at i r
                            | None => VNaN
                            end) to |}.

Definition concat (a b : Frame) : Frame :=
  let cols :=
    columns a ++ List.filter (fun c => negb (bool_decide (c ∈ columns a))) (columns b) in
  {| columns := cols;
     rows := map (relayout (columns a) cols) (rows a)
             ++ map (relayout (columns b) cols) (rows b) |}.

(** Sorting by row label with insertion, which leaves rows of equal label
    in the order they came in. *)
Fixpoint insert_row (r : Row) (sorted : list Row) : list Row :=
  match sorted with
  | [] => [r]
  | x :: rest =>
      if label r <=? label x then r :: x :: rest else x :: insert_row r rest
  end.

Definition sort_rows (l : list Row) : list Row := foldr insert_row [] l.

Definition stable_sort_index (f : Frame) : Frame :=
  {| columns := columns f; rows := sort_rows (rows f) |}.

(** [df.drop_duplicates()]: rows are compared on their cells (the index
    takes no part) and the first of equal rows is kept. *)
Fixpoint dedup_rows (seen : list (list Value)) (l : list Row) : list Row :=
  match l with
  | [] => []
  | r :: l' =>
      if bool_decide (cells r ∈ seen) then dedup_rows seen l'
      else r :: dedup_rows (cells r :: seen) l'
  end.

Definition drop_duplicates (f : Frame) : Frame :=
  {| columns := columns f; rows := dedup_rows [] (rows f) |}.

(** [df.iloc[:n]] *)
Definition iloc_to (n : nat) (f : Frame) : Frame :=
  {| columns := columns f; rows := take n (rows f) |}.

(** [df[c] = v] with a scalar [v]: the column is overwritten, or appended
    when the frame has none of that name. *)
Definition assign_const (c : string) (v : Value) (f : Frame) : Frame :=
  match col_index c (columns f) with
  | Some i =>
      {| columns := columns f;
         rows := map (fun r => {| label := label r; cells := <[i := v]> (cells r) |})
                     (rows f) |}
  | None =>
      {| columns := columns f ++ [c];
         rows := map (fun r => {| label := label r; cells := cells r ++ [v] |})
                     (rows f) |}
  end.

(* ===================================================================== *)
(** * The libraries behind the mixer                                      *)
(* ===================================================================== *)

(** [item_id] of a GluonTS dataset: one column name or a list of them. *)
Inductive ItemId : Type :=
  | IdColumn (c : string)
  | IdColumns (cs : list string).

#[global] Instance ItemId_eq_dec : EqDecision ItemId.
Proof. solve_decision. Defined.

(** [PandasDataset.from_long_dataframe(df, target=, item_id=, freq=)]: the
    dataset is the long frame with the roles of its columns and the
    frequency.  A frequency is the length of one period, in index units. *)
Record Dataset : Type := from_long_dataframe
  { ds_frame : Frame;
    ds_target : string;
    ds_item_id : ItemId;
    ds_freq : Z }.

#[global] Instance Dataset_eq_dec : EqDecision Dataset.
Proof. solve_decision. Defined.

(** A GluonTS forecast: its mean path and its quantile paths. *)
Record Forecast : Type := MkForecast
  { mean : list Q;
    quantile : Q -> list Q }.

(** A trained predictor: [predict] yields one forecast per series. *)
Definition Predictor : Type := Dataset -> option (list Forecast).

(** What the mixer takes from pandas and GluonTS as given. *)
Class Backend : Type :=
  { (** the type of the validation losses and Python's [>] on it *)
    loss : Type;
    loss_gt : loss -> loss -> bool;
    (** [df.sort_index()]: pandas sorts the labels with numpy's quicksort,
        which settles the order of rows of equal label as it sees fit *)
    sort_index : Frame -> Frame;
    (** [df.resample(freq).sum()] *)
    resample_sum : Z -> Frame -> option Frame;
    (** [df.groupby(by=c).resample(freq).sum().reset_index(level=[0])] *)
    groupby_resample_sum : string -> Z -> Frame -> option Frame;
    (** [DeepAREstimator(freq, prediction_length,
          trainer=Trainer(epochs, callbacks=[early_stop])).train(ds)] *)
    estimator_train : Z -> Z -> Z -> @EarlyStop.t loss -> Dataset -> option Predictor }.

(* ===================================================================== *)
(** * The mixer's state                                                   *)
(* ===================================================================== *)

(** [ts_analysis['tss']]: the time-series settings the mixer reads. *)
Record TimeseriesSettings : Type := MkTss
  { order_by : string;
    group_by : option (list string) }.

(** [ts_analysis]: the settings and [sample_freqs['__default']]. *)
Record TsAnalysis : Type := MkTsAnalysis
  { tss : TimeseriesSettings;
    sample_freqs_default : Z }.

(** The attributes of a [GluonTSMixer].  [train_cache] is a reference to a
    frame of the heap; [hyperparam_search] is only declared by the class
    and unset until [partial_fit] assigns it.  ([dtype_dict] is stored and
    never read; it is left out.) *)
Record GluonTSMixer : Type := MkMixer
  { stop_after : Z;
    stable : bool;
    prepared : bool;
    supports_proba : bool;
    target : string;
    window : Z;
    horizon : Z;
    n_epochs : Z;
    ts_analysis : TsAnalysis;
    grouped_by : list string;
    model : option Predictor;
    train_cache : option nat;
    patience : Z;
    hyperparam_search : option bool }.

(** [x if x else []] on the configured group-by columns. *)
Definition gby_of (a : TsAnalysis) : list string :=
  match group_by (tss a) with
  | Some (c :: cs) => c :: cs
  | _ => []
  end.

(** [GluonTSMixer.__init__] *)
Definition __init__ (stop_after : Z) (target : string) (horizon window : Z)
    (ts_analysis : TsAnalysis) (n_epochs early_stop_patience : Z) : GluonTSMixer :=
  {| stop_after := stop_after;
     stable := true;
     prepared := false;
     supports_proba := true;
     target := target;
     window := window;
     horizon := horizon;
     n_epochs := n_epochs;
     ts_analysis := ts_analysis;
     grouped_by := match gby_of ts_analysis with
                   | [] => ["__default"]
                   | gby => gby
                   end;
     model := None;
     train_cache := None;
     patience := early_stop_patience;
     hyperparam_search := None |}.

Definition set_model (m : Predictor) (s : GluonTSMixer) : GluonTSMixer :=
  {| stop_after := stop_after s; stable := stable s; prepared := prepared s;
     supports_proba := supports_proba s; target := target s; window := window s;
     horizon := horizon s; n_epochs := n_epochs s; ts_analysis := ts_analysis s;
     grouped_by := grouped_by s; model := Some m; train_cache := train_cache s;
     patience := patience s; hyperparam_search := hyperparam_search s |}.

Definition set_train_cache (l : nat) (s : GluonTSMixer) : GluonTSMixer :=
  {| stop_after := stop_after s; stable := stable s; prepared := prepared s;
     supports_proba := supports_proba s; target := target s; window := window s;
     horizon := horizon s; n_epochs := n_epochs s; ts_analysis := ts_analysis s;
     grouped_by := grouped_by s; model := model s; train_cache := Some l;
     patience := patience s; hyperparam_search := hyperparam_search s |}.

Definition set_prepared (b : bool) (s : GluonTSMixer) : GluonTSMixer :=
  {| stop_after := stop_after s; stable := stable s; prepared := b;
     supports_proba := supports_proba s; target := target s; window := window s;
     horizon := horizon s; n_epochs := n_epochs s; ts_analysis := ts_analysis s;
     grouped_by := grouped_by s; model := model s; train_cache := train_cache s;
     patience := patience s; hyperparam_search := hyperparam_search s |}.

Definition set_hyperparam_search (b : bool) (s : GluonTSMixer) : GluonTSMixer :=
  {| stop_after := stop_after s; stable := stable s; prepared := prepared s;
     supports_proba := supports_proba s; target := target s; window := window s;
     horizon := horizon s; n_epochs := n_epochs s; ts_analysis := ts_analysis s;
     grouped_by := grouped_by s; model := model s; train_cache := train_cache s;
     patience := patience s; hyperparam_search := Some b |}.

(** The part of the process a method can touch: the frames on the heap
    (a reference is the position of its frame), the mixer, and the lines
    sent to the logger. *)
Record World : Type := MkWorld
  { heap : list Frame;
    self : GluonTSMixer;
    logged : list string }.

(** Methods run in a state monad over the world, [None] being a raised
    exception. *)
Definition M (A : Type) : Type := World -> option (A * World).

#[global] Instance M_ret : MRet M := fun A a w => Some (a, w).
#[global] Instance M_bind : MBind M := fun A B k m w =>
  match m w with
  | Some (a, w') => k a w'
  | None => None
  end.

Definition lift {A} (o : option A) : M A := fun w =>
  match o with
  | Some a => Some (a, w)
  | None => None
  end.

Definition get_self : M GluonTSMixer := fun w => Some (self w, w).

Definition modify_self (f : GluonTSMixer -> GluonTSMixer) : M unit := fun w =>
  Some (tt, {| heap := heap w; self := f (self w); logged := logged w |}).

Definition log_info (line : string) : M unit := fun w =>
  Some (tt, {| heap := heap w; self := self w; logged := logged w ++ [line] |}).

(** A new object: the frame is stored at the next free location. *)
Definition alloc (f : Frame) : M nat := fun w =>
  Some (length (heap w),
        {| heap := heap w ++ [f]; self := self w; logged := logged w |}).

Definition deref (l : nat) : M Frame := fun w => lift (heap w !! l) w.

(** In-place mutation of the frame at [l] (by whoever holds the reference). *)
Definition mutate (l : nat) (f : Frame) (w : World) : World :=
  {| heap := <[l := f]> (heap w); self := self w; logged := logged w |}.

(** The frame behind [self.train_cache], if any. *)
Definition cached_frame (w : World) : option Frame :=
  l ← train_cache (self w); heap w !! l.

(* ===================================================================== *)
(** * Encoded datasets and prediction arguments                           *)
(* ===================================================================== *)

(** Modelled from the spec: [lightwood.data.encoded_ds] is not part of the
    sources at hand.  An encoded dataset exposes a tabular [data_frame]
    view and a length; a concatenation of datasets exposes the
    concatenation of their frames and the lengths of its parts. *)
Inductive EncodedDs : Type :=
  | Encoded (data_frame : nat)
  | ConcatedEncodedDs (encoded_ds_arr : list EncodedDs).

(** [pd.concat(frames)]; an empty list of frames is refused. *)
Definition concat_all (frames : list Frame) : option Frame :=
  match frames with
  | [] => None
  | f :: fs => Some (fold_left concat fs f)
  end.

(** Modelled from the spec: the frame [ds.data_frame] denotes. *)
Fixpoint frame_of (h : list Frame) (ds : EncodedDs) : option Frame :=
  match ds with
  | Encoded l => h !! l
  | ConcatedEncodedDs arr =>
      frames ← (fix each (arr : list EncodedDs) : option (list Frame) :=
                  match arr with
                  | [] => Some []
                  | d :: arr' =>
                      f ← frame_of h d; fs ← each arr'; Some (f :: fs)
                  end) arr;
      concat_all frames
  end.

(** Modelled from the spec: [len(ds)], the number of rows of its frame. *)
Definition len (h : list Frame) (ds : EncodedDs) : option nat :=
  f ← frame_of h ds; Some (length (rows f)).

(** Modelled from the spec: [ds.encoded_ds_lenghts], one length per part. *)
Definition encoded_ds_lenghts (h : list Frame) (arr : list EncodedDs)
  : option (list nat) :=
  mapM (len h) arr.

(** Reading [ds.data_frame] for the duration of one expression. *)
Definition read_data_frame (ds : EncodedDs) : M Frame := fun w =>
  lift (frame_of (heap w) ds) w.

(** [ds.data_frame] handed on as an object: the frame of a single dataset
    is the one it holds, that of a concatenation is built anew. *)
Definition data_frame_ref (ds : EncodedDs) : M nat :=
  match ds with
  | Encoded l => mret l
  | ConcatedEncodedDs _ => f ← read_data_frame ds; alloc f
  end.

(** Modelled from the spec: [lightwood.api.types.PredictionArguments],
    of which the mixer reads the optional fixed confidence level. *)
Record PredictionArguments : Type := MkArgs
  { fixed_confidence : option Q }.

(* ===================================================================== *)
(** * The dataset builder ([GluonTSMixer._make_initial_ds])               *)
(* ===================================================================== *)

(** [keep_cols] *)
Definition keep_cols (s : GluonTSMixer) : list string :=
  String.append "__mdb_original_" (order_by (tss (ts_analysis s)))
  :: target s :: gby_of (ts_analysis s).

(** [x[x[gby[0]].isin(groups)]] on the cached frame. *)
Definition filtered_cache (g : string) (groups : option (list Value)) : M Frame :=
  s ← get_self;
  l ← lift (train_cache s);
  cache ← deref l;
  lift (isin_rows g groups cache).

(** Lines 125-140: the frame that is about to be de-duplicated and
    resampled.  [pd.concat] skips an operand that is [None]. *)
Definition gather `{Backend} (df : option nat) (train : bool)
    (groups : option (list Value)) : M Frame :=
  s ← get_self;
  let gby := gby_of (ts_analysis s) in
  match df, train with
  | None, false =>
      match gby with
      | g :: _ => filtered_cache g groups
      | [] => l ← lift (train_cache s); deref l
      end
  | _, _ =>
      l ← lift df;
      f ← deref l;
      sub_df ← lift (select_columns (keep_cols s) f);
      _ ← alloc sub_df;
      copy ← alloc sub_df;
      if train then
        _ ← modify_self (set_train_cache copy);
        mret sub_df
      else
        match gby with
        | g :: _ =>
            cache ← filtered_cache g groups;
            mret (sort_index (concat cache sub_df))
        | [] =>
            match train_cache s with
            | Some c => cache ← deref c; mret (sort_index (concat cache sub_df))
            | None => mret (sort_index sub_df)
            end
        end
  end.

(** Lines 142-153: de-duplication, resampling, and the dataset. *)
Definition build `{Backend} (s : GluonTSMixer) (df : Frame) : option Dataset :=
  let gby := gby_of (ts_analysis s) in
  let freq := sample_freqs_default (ts_analysis s) in
  let df := drop_duplicates df in
  match gby with
  | g :: _ =>
      df ← groupby_resample_sum g freq df;
      Some (from_long_dataframe df (target s) (IdColumns gby) freq)
  | [] =>
      df ← resample_sum freq df;
      let df := assign_const "__default_group" (VStr "__default_group") df in
      Some (from_long_dataframe df (target s) (IdColumn "__default_group") freq)
  end.

Definition _make_initial_ds `{Backend}
    (df : option nat) (train : bool) (groups : option (list Value)) : M Dataset :=
  df ← gather df train groups;
  s ← get_self;
  lift (build s df).

(* ===================================================================== *)
(** * [fit], [partial_fit] and [__call__]                                 *)
(* ===================================================================== *)

Definition fit `{Backend} (train_data dev_data : EncodedDs) : M unit :=
  _ ← log_info "Started fitting GluonTS forecasting model";
  cat_df ← data_frame_ref (ConcatedEncodedDs [train_data; dev_data]);
  train_ds ← _make_initial_ds (Some cat_df) true None;
  s ← get_self;
  predictor ← lift (estimator_train (ds_freq train_ds) (horizon s) (n_epochs s)
                                    (EarlyStop.__init__ (patience s)) train_ds);
  _ ← modify_self (set_model predictor);
  log_info "Successfully trained GluonTS forecasting model.".

Definition partial_fit `{Backend} (train_data dev_data : EncodedDs) : M unit :=
  _ ← modify_self (set_hyperparam_search false);
  _ ← fit dev_data train_data;
  modify_self (set_prepared true).

(** A cell of the output frame: the fill value, or a forecast path. *)
Inductive Cell : Type :=
  | Zero
  | Path (entries : list Q).

Record OutRow : Type := MkOutRow
  { prediction : Cell;
    lower : Cell;
    upper : Cell;
    index : Z;
    confidence : Q }.

(** A row of the output frame before the loop: zero-filled, with the
    label of the input row and the confidence level. *)
Definition blank_row (conf : Q) (r : Row) : OutRow :=
  {| prediction := Zero; lower := Zero; upper := Zero;
     index := label r; confidence := conf |}.

(** Python's truth value of [args.fixed_confidence]. *)
Definition truthy (c : option Q) : bool :=
  match c with
  | Some q => negb (Qeq_bool q 0)
  | None => false
  end.

(** [conf] (line 103) *)
Definition conf_of (args : PredictionArguments) : Q :=
  if truthy (fixed_confidence args)
  then default (9 # 10)%Q (fixed_confidence args)
  else (9 # 10)%Q.

(** [groups] (lines 106-107): the distinct values of the first group-by
    column of the whole input, or [None] without grouping. *)
Definition groups_of (s : GluonTSMixer) (f : Frame) : option (option (list Value)) :=
  match gby_of (ts_analysis s) with
  | g :: _ => vs ← column g f; Some (Some (unique vs))
  | [] => Some None
  end.

Definition call_groups (ds : EncodedDs) : M (option (list Value)) :=
  f ← read_data_frame ds;
  s ← get_self;
  lift (groups_of s f).

(** [df] (line 110): the rows before position [idx], as a new frame. *)
Definition history (ds : EncodedDs) (idx : nat) : M (option nat) :=
  if decide (idx ≠ O) then
    f ← read_data_frame ds;
    l ← alloc (iloc_to idx f);
    mret (Some l)
  else mret None.

(** [ydf.at[idx, column] = value], on a label the frame has. *)
Definition at_set (idx : nat) (f : OutRow -> OutRow) (ydf : list OutRow)
  : option (list OutRow) :=
  r ← ydf !! idx; Some (<[idx := f r]> ydf).

Definition set_prediction (c : Cell) (r : OutRow) : OutRow :=
  {| prediction := c; lower := lower r; upper := upper r;
     index := index r; confidence := confidence r |}.

Definition set_lower (c : Cell) (r : OutRow) : OutRow :=
  {| prediction := prediction r; lower := c; upper := upper r;
     index := index r; confidence := confidence r |}.

Definition set_upper (c : Cell) (r : OutRow) : OutRow :=
  {| prediction := prediction r; lower := lower r; upper := c;
     index := index r; confidence := confidence r |}.

(** The dataset one iteration hands to the predictor (lines 110-111). *)
Definition input_ds `{Backend} (ds : EncodedDs) (groups : option (list Value))
    (idx : nat) : M Dataset :=
  df ← history ds idx;
  _make_initial_ds df false groups.

(** One iteration of the loop (lines 110-115). *)
Definition call_row `{Backend} (ds : EncodedDs) (groups : option (list Value))
    (conf : Q) (ydf : list OutRow) (idx : nat) : M (list OutRow) :=
  input ← input_ds ds groups idx;
  s ← get_self;
  predictor ← lift (model s);
  forecasts ← lift (predictor input);
  forecast ← lift (head forecasts);
  ydf ← lift (at_set idx (set_prediction (Path (mean forecast))) ydf);
  ydf ← lift (at_set idx (set_lower (Path (quantile forecast (1 - conf)%Q))) ydf);
  lift (at_set idx (set_upper (Path (quantile forecast conf))) ydf).

Fixpoint call_loop `{Backend} (ds : EncodedDs) (groups : option (list Value))
    (conf : Q) (ydf : list OutRow) (idxs : list nat) : M (list OutRow) :=
  match idxs with
  | [] => mret ydf
  | idx :: idxs' =>
      ydf ← call_row ds groups conf ydf idx;
      call_loop ds groups conf ydf idxs'
  end.

Definition __call__ `{Backend} (ds : EncodedDs) (args : PredictionArguments)
  : M (list OutRow) :=
  length ← (fun w =>
              lift (match ds with
                    | ConcatedEncodedDs arr =>
                        ls ← encoded_ds_lenghts (heap w) arr;
                        Some (foldr Nat.add O ls)
                    | Encoded _ => len (heap w) ds
                    end) w);
  f ← read_data_frame ds;
  _ ← lift (guard (length = Datatypes.length (rows f)));
  let conf := conf_of args in
  let ydf := map (blank_row conf) (rows f) in
  groups ← call_groups ds;
  call_loop ds groups conf ydf (seq 0 length).


(* ===================================================================== *)
(** * Specification-side notions                                          *)
(* ===================================================================== *)

(** The columns a dataset is keyed by. *)
Definition id_columns (i : ItemId) : list string :=
  match i with
  | IdColumn c => [c]
  | IdColumns cs => cs
  end.

(** Every row has one cell per column. *)
Definition well_formed (f : Frame) : Prop :=
  Forall (fun r => length (cells r) = length (columns f)) (rows f).

(** The world a successful training call of the builder leaves behind:
    the selected sub-table and its deep copy are new objects, and the
    cache refers to the copy. *)
Definition trained_world (w : World) (sub : Frame) : World :=
  {| heap := heap w ++ [sub; sub];
     self := set_train_cache (S (length (heap w))) (self w);
     logged := logged w |}.

(** The cached table restricted to the requested groups: rows whose first
    group-by column holds one of [groups] when grouping is configured,
    the whole table otherwise. *)
Definition requested (s : GluonTSMixer) (groups : option (list Value))
    (cache : Frame) : option Frame :=
  match gby_of (ts_analysis s) with
  | g :: _ => isin_rows g groups cache
  | [] => Some cache
  end.

(** Rows in the order of their labels. *)
Definition by_label (l : list Row) : Prop :=
  Sorted (fun a b => label a <= label b) l.

(** What an inference call with a table puts before the selected columns
    of that table: the restricted cache, or nothing when no grouping is
    configured and nothing is cached ([pd.concat] skips a [None]). *)
Definition prior (w : World) (groups : option (list Value))
  : option (option Frame) :=
  match gby_of (ts_analysis (self w)) with
  | g :: _ =>
      c ← train_cache (self w); cache ← heap w !! c;
      fr ← isin_rows g groups cache; Some (Some fr)
  | [] =>
      match train_cache (self w) with
      | Some c => cache ← heap w !! c; Some (Some cache)
      | None => Some None
      end
  end.

Definition joined (before : option Frame) (sub : Frame) : Frame :=
  match before with
  | Some fr => concat fr sub
  | None => sub
  end.

(** The cache, when there is one, refers to an object that exists. *)
Definition cache_allocated (w : World) : Prop :=
  match train_cache (self w) with
  | Some c => (c < length (heap w))%nat
  | None => True
  end.

(** The process with the mixer's [hyperparam_search] switched off. *)
Definition search_off (w : World) : World :=
  {| heap := heap w;
     self := set_hyperparam_search false (self w);
     logged := logged w |}.

(** The output row of a call once its forecast is written into it. *)
Definition forecast_row (forecast : Forecast) (conf : Q) (r : OutRow) : OutRow :=
  {| prediction := Path (mean forecast);
     lower := Path (quantile forecast (1 - conf)%Q);
     upper := Path (quantile forecast conf);
     index := index r;
     confidence := confidence r |}.

(** [w'] is [w] with more frames allocated: nothing else has changed. *)
Definition grown (w w' : World) : Prop :=
  self w' = self w /\ logged w' = logged w /\ heap w `prefix_of` heap w'.

(** The dataset built from the cache alone, restricted to [groups]. *)
Definition from_cache `{Backend} (w : World) (groups : option (list Value))
  : option Dataset :=
  cache ← cached_frame w;
  fr ← requested (self w) groups cache;
  build (self w) fr.

(** A table with its duplicate rows removed: rows are compared on the
    columns [keys] alone, and of equal rows the first stays. *)
Fixpoint dedup_on (key : Row -> list Value) (seen : list (list Value))
    (l : list Row) : list Row :=
  match l with
  | [] => []
  | r :: l' =>
      if bool_decide (key r ∈ seen) then dedup_on key seen l'
      else r :: dedup_on key (key r :: seen) l'
  end.

Definition without_duplicates (keys : list string) (f : Frame) : option Frame :=
  positions ← mapM (fun c => col_index c (columns f)) keys;
  Some {| columns := columns f;
          rows := dedup_on (fun r => map (fun i => cell_at i r) positions) []
                           (rows f) |}.

(** No copy of a row carries a smaller label than an earlier copy of it. *)
Fixpoint copies_in_label_order (l : list Row) : bool :=
  match l with
  | [] => true
  | r :: l' =>
      forallb (fun r' => if decide (cells r' = cells r)
                         then label r <=? label r' else true) l'
      && copies_in_label_order l'
  end.

(** [thinned seen l l']: [l'] is [l] without some of its rows, each of
    them a copy of a row that stands earlier in [l] or in [seen] and
    has a label that is not larger. *)
Inductive thinned : list Row -> list Row -> list Row -> Prop :=
  | thinned_nil seen : thinned seen [] []
  | thinned_keep seen r l l' :
      thinned (r :: seen) l l' -> thinned seen (r :: l) (r :: l')
  | thinned_drop seen r l l' :
      Exists (fun r0 => cells r0 = cells r /\ label r0 <= label r) seen ->
      thinned seen l l' -> thinned seen (r :: l) l'.

(** No copy of a row carries a smaller label than an earlier copy of it,
    rows being compared on the columns [keys]. *)
Definition copies_ordered (keys : list string) (f : Frame) : bool :=
  match select_columns keys f with
  | Some sub => copies_in_label_order (rows sub)
  | None => true
  end.

(** What pandas documents of [sort_index]: the columns stay, and the rows
    come back in the order of their labels. *)
Definition sorts_by_label `{Backend} : Prop :=
  forall f,
    columns (sort_index f) = columns f
    /\ by_label (rows (sort_index f))
    /\ Permutation (rows (sort_index f)) (rows f).

(** The sort is stable: rows of equal label stay in the order they had. *)
Definition keeps_ties `{Backend} : Prop :=
  forall f, sort_index f = stable_sort_index f.

(** Resampling does not depend on the order in which rows of equal label
    stand in the table. *)
Definition order_free `{Backend} : Prop :=
  forall freq f f',
    columns f = columns f' ->
    by_label (rows f) -> by_label (rows f') ->
    Permutation (rows f) (rows f') ->
    resample_sum freq f = resample_sum freq f'
    /\ forall c, groupby_resample_sum c freq f = groupby_resample_sum c freq f'.

(* ===================================================================== *)
(** * An executable backend                                               *)
(* ===================================================================== *)

(** One reading of the pandas operations, used to run the builder on
    concrete tables.  Row labels are time stamps, counted in a unit of
    which [day] make a day, and a frequency is a number of these units.
    Numbers are the cells of an int64 column, whose sums wrap around.  A
    column is a string column when one of its cells is a string and a
    numeric column otherwise; [sum] leaves the string columns out.
    Buckets are the intervals [[lo + k * freq, lo + (k + 1) * freq)],
    labelled by their left end and counted from the start of the day of
    the first time stamp; every bucket from that of the first to that of
    the last time stamp is present, an empty one summing to zero. *)
Module Pandas.
Section Calendar.
Variable day : Z.

(** [origin='start_day']: midnight of the day of [t]. *)
Definition start_day (t : Z) : Z := day * (t / day).

Definition bucket (origin freq t : Z) : Z :=
  origin + freq * ((t - origin) / freq).

(** Addition in int64. *)
Definition wrap (z : Z) : Z := (z + 2 ^ 63) mod 2 ^ 64 - 2 ^ 63.

Definition add_value (v : Value) (acc : Z) : Z :=
  match v with
  | VNum z => wrap (z + acc)
  | _ => acc
  end.

(** The sum of the cells of a numeric column, NaN counting as zero. *)
Definition total (vs : list Value) : Z := foldr add_value 0 vs.

Definition sum_values (vs : list Value) : Value := VNum (total vs).

Definition numeric (v : Value) : bool :=
  match v with
  | VStr _ => false
  | _ => true
  end.

Definition numeric_column (f : Frame) (i : nat) : bool :=
  forallb (fun r => numeric (cell_at i r)) (rows f).

(** The positions of the numeric columns of a table. *)
Definition numeric_positions (f : Frame) : list nat :=
  List.filter (numeric_column f) (seq 0 (length (columns f))).

Definition pick {A} (positions : list nat) (l : list A) : list A :=
  omap (fun i => l !! i) positions.

(** The buckets of the rows [members] with, in each, the sums of the
    columns at [positions]. *)
Definition resample_rows (positions : list nat) (freq : Z) (members : list Row)
  : list Row :=
  match map label members with
  | [] => []
  | t :: ts =>
      let first := foldr Z.min t ts in
      let last := foldr Z.max t ts in
      let origin := start_day first in
      let lo := bucket origin freq first in
      let hi := bucket origin freq last in
      map (fun k =>
             let l := lo + freq * Z.of_nat k in
             {| label := l;
                cells :=
                  map (fun i =>
                         sum_values
                           (map (cell_at i)
                                (List.filter
                                   (fun r => bool_decide
                                               (bucket origin freq (label r) = l))
                                   members)))
                      positions |})
          (seq 0 (S (Z.to_nat ((hi - lo) / freq))))
  end.

(** [df.resample(freq).sum()] *)
Definition resample_sum (freq : Z) (f : Frame) : option Frame :=
  if decide (0 < freq) then
    Some {| columns := pick (numeric_positions f) (columns f);
            rows := resample_rows (numeric_positions f) freq (rows f) |}
  else None.

(** The order in which [groupby] presents its keys: numbers before
    strings. *)
Definition value_leb (a b : Value) : bool :=
  match a, b with
  | VNum x, VNum y => x <=? y
  | VNum _, _ => true
  | VStr x, VStr y => String.leb x y
  | VStr _, VNum _ => false
  | VStr _, VNaN => true
  | VNaN, VNaN => true
  | VNaN, _ => false
  end.

Fixpoint insert_key (k : Value) (sorted : list Value) : list Value :=
  match sorted with
  | [] => [k]
  | x :: rest => if value_leb k x then k :: x :: rest else x :: insert_key k rest
  end.

(** The keys of the groups: the values of the grouping column other than
    NaN, each once, in order. *)
Definition group_keys (i : nat) (f : Frame) : list Value :=
  foldr insert_key []
        (List.filter (fun k => negb (bool_decide (k = VNaN)))
                     (unique (map (cell_at i) (rows f)))).

(** [df.groupby(by=c).resample(freq).sum().reset_index(level=[0])]: the rows
    of each key are resampled on their own, over the numeric columns of
    the table, and [reset_index] puts the key in front as column [c].  It
    cannot do so when [c] is a numeric column, which the sum has kept; and
    a table without any group is refused by the resampler. *)
Definition groupby_resample_sum (c : string) (freq : Z) (f : Frame) : option Frame :=
  i ← col_index c (columns f);
  _ ← guard (0 < freq);
  _ ← guard (group_keys i f <> []);
  _ ← guard (numeric_column f i = false);
  Some {| columns := c :: pick (numeric_positions f) (columns f);
          rows :=
            List.concat
              (map (fun k =>
                      map (fun r => {| label := label r; cells := k :: cells r |})
                          (resample_rows (numeric_positions f) freq
                             (List.filter (fun r => bool_decide (cell_at i r = k))
                                          (rows f))))
                   (group_keys i f)) |}.

End Calendar.

(** A stand-in for a trained network: one forecast, flat at the total of
    the numbers in the target column, its [q]-quantile flat at [2 * q]
    times that total. *)
Definition target_total (ds : Dataset) : Q :=
  match column (ds_target ds) (ds_frame ds) with
  | Some vs =>
      inject_Z (foldr (fun v acc => match v with
                                    | VNum z => z + acc
                                    | _ => acc
                                    end) 0 vs)
  | None => 0%Q
  end.

Definition flat_predictor (horizon : Z) : Predictor := fun ds =>
  Some [ {| mean := replicate (Z.to_nat horizon) (target_total ds);
            quantile := fun q =>
              replicate (Z.to_nat horizon) (2 * q * target_total ds)%Q |} ].

(** The backend for tables whose labels count [day] units to the day.  Its
    sort leaves rows of equal label in the order they had, which is what
    numpy does in an array of up to sixteen entries and what pandas does
    with a table that comes sorted; in a longer table pandas may leave
    such rows in another order. *)
Definition backend (day : Z) : Backend :=
  Build_Backend Z Z.gtb stable_sort_index (resample_sum day)
    (groupby_resample_sum day)
    (fun freq horizon epochs early_stop ds => Some (flat_predictor horizon)).

End Pandas.

(* ===================================================================== *)
(** * The registry of built-in encoders ([lightwood/encoders/__init__.py]) *)
(* ===================================================================== *)

Module Encoders.

(** The objects the module binds: a class imported from another module,
    a boolean, and a class defined here (its attribute dictionary). *)
Inductive Obj : Type :=
  | Imported (module name : string)
  | PyBool (b : bool)
  | Namespace (attrs : gmap string Obj).

Definition truth (o : Obj) : bool :=
  match o with
  | PyBool b => b
  | _ => true
  end.

(** The module being executed: its global names and what it printed. *)
Record Module : Type := MkModule
  { globals : gmap string Obj;
    stdout : list string }.

(** Module-level statements.  An exception ([None]) leaves the bindings
    made so far in place, which is what an [except] clause resumes from. *)
Definition Exec : Type := Module -> Module * option unit.

Definition seq_ (a b : Exec) : Exec := fun m =>
  match a m with
  | (m', Some _) => b m'
  | (m', None) => (m', None)
  end.

Definition bind_global (x : string) (o : Obj) : Exec := fun m =>
  ({| globals := <[x := o]> (globals m); stdout := stdout m |}, Some tt).

(** [from module import name], in an interpreter where importing [module]
    succeeds exactly when [importable module] holds. *)
Definition import_from (importable : string -> bool) (module name : string) : Exec :=
  fun m => if importable module then bind_global name (Imported module name) m
           else (m, None).

Definition print (line : string) : Exec := fun m =>
  ({| globals := globals m; stdout := stdout m ++ [line] |}, Some tt).

(** [try: body except: handler] with a bare [except]. *)
Definition try_except (body handler : Exec) : Exec := fun m =>
  match body m with
  | (m', Some _) => (m', Some tt)
  | (m', None) => handler m'
  end.

(** Statements of a class body: they run against the module's globals and
    fill the class's own namespace; a name is looked up in the class
    first, then in the module, and is a [NameError] when in neither. *)
Definition ClassBody : Type :=
  gmap string Obj -> gmap string Obj -> option (gmap string Obj).

Definition lookup_name (x : string) (g locals : gmap string Obj) : option Obj :=
  match locals !! x with
  | Some o => Some o
  | None => g !! x
  end.

(** [x = y] inside a class body *)
Definition attr (x y : string) : ClassBody := fun g locals =>
  o ← lookup_name y g locals; Some (<[x := o]> locals).

(** [if y: body] inside a class body *)
Definition if_ (y : string) (body : ClassBody) : ClassBody := fun g locals =>
  o ← lookup_name y g locals;
  if truth o then body g locals else Some locals.

Definition then_ (a b : ClassBody) : ClassBody := fun g locals =>
  locals' ← a g locals; b g locals'.

Definition pass : ClassBody := fun g locals => Some locals.

(** [class name: body] *)
Definition class_ (name : string) (body : ClassBody) : Exec := fun m =>
  match body (globals m) ∅ with
  | Some locals => bind_global name (Namespace locals) m
  | None => (m, None)
  end.

(** [x = y] at module level *)
Definition assign (x y : string) : Exec := fun m =>
  match globals m !! y with
  | Some o => bind_global x o m
  | None => (m, None)
  end.

Notation "a ;; b" := (seq_ a b) (at level 100, b at level 200, right associativity).

(** The imports every interpreter must satisfy (lines 1-9). *)
Definition required : list (string * string) :=
  [ ("lightwood.encoders.datetime.datetime", "DatetimeEncoder");
    ("lightwood.encoders.image.img_2_vec", "Img2VecEncoder");
    ("lightwood.encoders.image.nn", "NnAutoEncoder");
    ("lightwood.encoders.numeric.numeric", "NumericEncoder");
    ("lightwood.encoders.text.infersent", "InferSentEncoder");
    ("lightwood.encoders.text.rnn", "RnnEncoder");
    ("lightwood.encoders.categorical.onehot", "OneHotEncoder");
    ("lightwood.encoders.categorical.autoencoder", "CategoricalAutoEncoder");
    ("lightwood.encoders.time_series.ts_fresh_ts", "TsFreshTsEncoder") ].

Definition cesium_ts : string := "lightwood.encoders.time_series.cesium_ts".
Definition audio : string := "lightwood.encoders.audio.audio".

(** The module, statement by statement. *)
Definition body (importable : string -> bool) : Exec :=
  foldr (fun '(module, name) rest => import_from importable module name ;; rest)
        (fun m => (m, Some tt)) required ;;
  try_except
    (import_from importable cesium_ts "CesiumTsEncoder" ;;
     import_from importable audio "AmplitudeTsEncoder" ;;
     bind_global "export_optional_encoder" (PyBool true))
    (bind_global "export_optional_encoder" (PyBool false) ;;
     print "Time series encoders can't be loaded") ;;
  class_ "DateTime" (attr "DatetimeEncoder" "DatetimeEncoder") ;;
  class_ "Image" (then_ (attr "Img2VecEncoder" "Img2VecEncoder")
                        (attr "NnAutoEncoder" "NnAutoEncoder")) ;;
  class_ "Numeric" (attr "NumericEncoder" "NumericEncoder") ;;
  class_ "Text" (then_ (attr "InferSentEncoder" "InferSentEncoder")
                       (attr "RnnEncoder" "RnnEncoder")) ;;
  class_ "Categorical" (then_ (attr "OneHotEncoder" "OneHotEncoder")
                              (attr "CategoricalAutoEncoder" "CategoricalAutoEncoder")) ;;
  class_ "TimeSeries" (then_ (attr "TsFreshTsEncoder" "TsFreshTsEncoder")
                             (if_ "export_optional_encoder"
                                  (attr "CesiumTsEncoder" "CesiumTsEncoder"))) ;;
  class_ "Audio" (if_ "export_optional_encoder"
                      (attr "AmplitudeTsEncoder" "AmplitudeTsEncoder")) ;;
  class_ "BuiltinEncoders"
         (then_ (attr "DateTime" "DateTime")
         (then_ (attr "Image" "Image")
         (then_ (attr "Numeric" "Numeric")
         (then_ (attr "Text" "Text")
         (then_ (attr "Categorical" "Categorical")
         (then_ (attr "TimeSeries" "TimeSeries")
                (attr "Audio" "Audio"))))))) ;;
  assign "BUILTIN_ENCODERS" "BuiltinEncoders".

(** Importing the registry: [None] when the import raises. *)
Definition load (importable : string -> bool) : option Module :=
  match body importable {| globals := ∅; stdout := [] |} with
  | (m, Some _) => Some m
  | (_, None) => None
  end.

(** The attribute names of a category of the loaded registry. *)
Definition category (m : Module) (name : string) : option (gset string) :=
  match globals m !! "BUILTIN_ENCODERS" with
  | Some (Namespace registry) =>
      match registry !! name with
      | Some (Namespace attrs) => Some (dom attrs)
      | _ => None
      end
  | _ => None
  end.

(** The value of [export_optional_encoder] in the loaded module. *)
Definition flag (m : Module) : option bool :=
  match globals m !! "export_optional_encoder" with
  | Some (PyBool b) => Some b
  | _ => None
  end.

(** An interpreter with every required module and the given optional ones. *)
Definition interpreter (with_cesium with_audio : bool) (module : string) : bool :=
  if decide (module = cesium_ts) then with_cesium
  else if decide (module = audio) then with_audio
  else true.

End Encoders.

(* ===================================================================== *)
(** * Further notions                                                     *)
(* ===================================================================== *)

(** The flags the early-stop callback returns along a training run. *)
Fixpoint signals {loss : Type} (gt : loss -> loss -> bool)
    (s : @EarlyStop.t loss) (losses : list loss) : list bool :=
  match losses with
  | [] => []
  | x :: rest =>
      snd (EarlyStop.on_validation_epoch_end gt s x)
      :: signals gt (fst (EarlyStop.on_validation_epoch_end gt s x)) rest
  end.

(** Every loss of the list stands in relation [R] to the one before it. *)
Fixpoint stepwise {A : Type} (R : A -> A -> Prop) (l : list A) : Prop :=
  match l with
  | before :: (x :: _) as rest => R before x /\ stepwise R rest
  | _ => True
  end.

(** [groups] names every value the first group-by column takes in the
    cached table (nothing is asked of it when no grouping is configured). *)
Definition covers_cache (w : World) (groups : option (list Value)) : Prop :=
  match gby_of (ts_analysis (self w)) with
  | [] => True
  | g :: _ =>
      exists cache vs gs,
        cached_frame w = Some cache
        /\ column g cache = Some vs
        /\ groups = Some gs
        /\ vs ⊆ gs
  end.

(** Two mixers are configured alike: what they learned may differ. *)
Definition same_settings (s1 s2 : GluonTSMixer) : Prop :=
  target s1 = target s2
  /\ horizon s1 = horizon s2
  /\ n_epochs s1 = n_epochs s2
  /\ ts_analysis s1 = ts_analysis s2
  /\ patience s1 = patience s2.

(** The process [fit] leaves behind: the concatenated table, the selected
    sub-table and its copy are new objects, the cache refers to the copy,
    the model is the trained predictor, and two lines are logged. *)
Definition fitted_world (w : World) (cat sub : Frame) (predictor : Predictor)
  : World :=
  {| heap := heap w ++ [cat; sub; sub];
     self := set_model predictor
               (set_train_cache (S (S (length (heap w)))) (self w));
     logged := logged w ++ ["Started fitting GluonTS forecasting model";
                            "Successfully trained GluonTS forecasting model."] |}.

(** What [fit] computes from the frames of its two arguments: the
    concatenated table, its selected columns, and the trained predictor. *)
Definition fit_outcome `{Backend} (s : GluonTSMixer) (first second : Frame)
  : option (Frame * Frame * Predictor) :=
  let cat := concat first second in
  sub ← select_columns (keep_cols s) cat;
  d ← build s sub;
  predictor ← estimator_train (ds_freq d) (horizon s) (n_epochs s)
                              (EarlyStop.__init__ (patience s)) d;
  Some (cat, sub, predictor).

(** [name] is bound at the top level of the loaded registry module. *)
Definition bound (m : Encoders.Module) (name : string) : bool :=
  bool_decide (is_Some (Encoders.globals m !! name)).

(** The names of the categories of the loaded registry. *)
Definition categories (m : Encoders.Module) : option (gset string) :=
  match Encoders.globals m !! "BUILTIN_ENCODERS" with
  | Some (Encoders.Namespace registry) => Some (dom registry)
  | _ => None
  end.

(* ===================================================================== *)
(** * Concrete tables and mixers                                          *)
(* ===================================================================== *)

Module Examples.

(** The executable backend on tables whose labels count hours. *)
Definition hourly : Backend := Pandas.backend 24.

(** A table of two series [a] and [b] with a covariate; its last row
    repeats the one before it, under a later label. *)
Definition sales : Frame :=
  {| columns := ["__mdb_original_t"; "y"; "g"; "extra"];
     rows := [ MkRow 0 [VNum 0; VNum 5; VStr "a"; VNum 1];
               MkRow 1 [VNum 1; VNum 6; VStr "b"; VNum 1];
               MkRow 3 [VNum 3; VNum 7; VStr "a"; VNum 1];
               MkRow 4 [VNum 3; VNum 7; VStr "a"; VNum 2] ] |}.

(** A mixer for target [y] ordered by [t], with horizon 2, a frequency of
    two index units, ten epochs and a patience of three. *)
Definition mixer (group_by : option (list string)) : GluonTSMixer :=
  __init__ 10 "y" 2 5 (MkTsAnalysis (MkTss "t" group_by) 2) 10 3.

(** A process that holds [sales] and a fresh mixer. *)
Definition fresh (group_by : option (list string)) : World :=
  {| heap := [sales]; self := mixer group_by; logged := [] |}.

(** What [df[keep_cols]] makes of [sales] when grouping by [g]. *)
Definition sales_kept : Frame :=
  {| columns := ["__mdb_original_t"; "y"; "g"];
     rows := [ MkRow 0 [VNum 0; VNum 5; VStr "a"];
               MkRow 1 [VNum 1; VNum 6; VStr "b"];
               MkRow 3 [VNum 3; VNum 7; VStr "a"];
               MkRow 4 [VNum 3; VNum 7; VStr "a"] ] |}.

(** [sales] without the second copy of its repeated row. *)
Definition sales_once : Frame :=
  {| columns := ["__mdb_original_t"; "y"; "g"; "extra"];
     rows := [ MkRow 0 [VNum 0; VNum 5; VStr "a"; VNum 1];
               MkRow 1 [VNum 1; VNum 6; VStr "b"; VNum 1];
               MkRow 3 [VNum 3; VNum 7; VStr "a"; VNum 1] ] |}.

(** A mixer grouped by [g] that was trained on [sales] and is now asked
    about [sales] again, or about [sales_once]. *)
Definition serving_sales : World :=
  {| heap := [sales_kept; sales; sales_once];
     self := set_train_cache 0 (mixer (Some ["g"]));
     logged := [] |}.

(** One reading that arrives twice, the copy with the later label first. *)
Definition readings : Frame :=
  {| columns := ["__mdb_original_t"; "y"];
     rows := [ MkRow 10 [VNum 1; VNum 5];
               MkRow 0 [VNum 1; VNum 5] ] |}.

Definition readings_once : Frame :=
  {| columns := ["__mdb_original_t"; "y"];
     rows := [ MkRow 10 [VNum 1; VNum 5] ] |}.

Definition earlier_readings : Frame :=
  {| columns := ["__mdb_original_t"; "y"];
     rows := [ MkRow 4 [VNum 0; VNum 2] ] |}.

(** An ungrouped mixer that cached [earlier_readings]. *)
Definition serving_readings : World :=
  {| heap := [earlier_readings; readings; readings_once];
     self := set_train_cache 0 (mixer None);
     logged := [] |}.

(** The rows of series [a] in [sales_kept]. *)
Definition sales_a : Frame :=
  {| columns := ["__mdb_original_t"; "y"; "g"];
     rows := [ MkRow 0 [VNum 0; VNum 5; VStr "a"];
               MkRow 3 [VNum 3; VNum 7; VStr "a"];
               MkRow 4 [VNum 3; VNum 7; VStr "a"] ] |}.

(** The rows of series [a] in the cache followed by those of [sales_kept],
    in the order of their labels. *)
Definition sales_a_and_sales : Frame :=
  {| columns := ["__mdb_original_t"; "y"; "g"];
     rows := [ MkRow 0 [VNum 0; VNum 5; VStr "a"];
               MkRow 0 [VNum 0; VNum 5; VStr "a"];
               MkRow 1 [VNum 1; VNum 6; VStr "b"];
               MkRow 3 [VNum 3; VNum 7; VStr "a"];
               MkRow 3 [VNum 3; VNum 7; VStr "a"];
               MkRow 4 [VNum 3; VNum 7; VStr "a"];
               MkRow 4 [VNum 3; VNum 7; VStr "a"] ] |}.

(** The training dataset of an ungrouped mixer on [sales], under the
    executable backend. *)
Definition sales_dataset : Dataset :=
  {| ds_frame :=
       {| columns := ["__mdb_original_t"; "y"; "__default_group"];
          rows := [ MkRow 0 [VNum 1; VNum 11; VStr "__default_group"];
                    MkRow 2 [VNum 3; VNum 7; VStr "__default_group"] ] |};
     ds_target := "y";
     ds_item_id := IdColumn "__default_group";
     ds_freq := 2 |}.

(** What [df[keep_cols]] makes of [sales] without grouping. *)
Definition sales_plain : Frame :=
  {| columns := ["__mdb_original_t"; "y"];
     rows := [ MkRow 0 [VNum 0; VNum 5];
               MkRow 1 [VNum 1; VNum 6];
               MkRow 3 [VNum 3; VNum 7];
               MkRow 4 [VNum 3; VNum 7] ] |}.

(** A table with two group-by columns, the region [g] and the number [h]
    of a department, and a mixer configured with both. *)
Definition stores : Frame :=
  {| columns := ["__mdb_original_t"; "y"; "g"; "h"];
     rows := [ MkRow 0 [VNum 0; VNum 5; VStr "north"; VNum 7];
               MkRow 1 [VNum 1; VNum 6; VStr "south"; VNum 7];
               MkRow 2 [VNum 2; VNum 4; VStr "north"; VNum 8] ] |}.

Definition fresh_stores : World :=
  {| heap := [stores]; self := mixer (Some ["g"; "h"]); logged := [] |}.

Definition stores_dataset : Dataset :=
  {| ds_frame :=
       {| columns := ["g"; "__mdb_original_t"; "y"; "h"];
          rows := [ MkRow 0 [VStr "north"; VNum 0; VNum 5; VNum 7];
                    MkRow 2 [VStr "north"; VNum 2; VNum 4; VNum 8];
                    MkRow 0 [VStr "south"; VNum 1; VNum 6; VNum 7] ] |};
     ds_target := "y";
     ds_item_id := IdColumns ["g"; "h"];
     ds_freq := 2 |}.

(** Two one-row inputs for the mixer grouped by [g] that cached
    [sales_kept]: one asks about series [a], the other about series [b]. *)
Definition ask_a : Frame :=
  {| columns := ["__mdb_original_t"; "y"; "g"];
     rows := [ MkRow 6 [VNum 6; VNum 0; VStr "a"] ] |}.

Definition ask_b : Frame :=
  {| columns := ["__mdb_original_t"; "y"; "g"];
     rows := [ MkRow 6 [VNum 6; VNum 0; VStr "b"] ] |}.

Definition serving_asks : World :=
  {| heap := [sales_kept; ask_a; ask_b];
     self := set_train_cache 0 (mixer (Some ["g"]));
     logged := [] |}.

(** The same process once a model is in place, and what a call on
    [ask_a] returns there under the executable backend. *)
Definition serving_model : World :=
  {| heap := [sales_kept; ask_a; ask_b];
     self := set_model (Pandas.flat_predictor 2)
               (set_train_cache 0 (mixer (Some ["g"])));
     logged := [] |}.

Definition answer_a : list OutRow :=
  [ {| prediction := Path [12 # 1; 12 # 1]%Q;
       lower := Path [24 # 10; 24 # 10]%Q;
       upper := Path [216 # 10; 216 # 10]%Q;
       index := 6;
       confidence := (9 # 10)%Q |} ].

(** The training dataset of the mixer grouped by [g] on [sales], under
    the executable backend. *)
Definition sales_grouped_dataset : Dataset :=
  {| ds_frame :=
       {| columns := ["g"; "__mdb_original_t"; "y"];
          rows := [ MkRow 0 [VStr "a"; VNum 0; VNum 5];
                    MkRow 2 [VStr "a"; VNum 3; VNum 7];
                    MkRow 0 [VStr "b"; VNum 1; VNum 6] ] |};
     ds_target := "y";
     ds_item_id := IdColumns ["g"];
     ds_freq := 2 |}.

(** A table without a target column. *)
Definition untargeted : Frame :=
  {| columns := ["__mdb_original_t"; "g"];
     rows := [ MkRow 0 [VNum 0; VStr "a"] ] |}.

Definition fresh_untargeted : World :=
  {| heap := [untargeted]; self := mixer None; logged := [] |}.

(** [serving_sales] after an inference call about [sales]. *)
Definition served_sales : World :=
  {| heap := [sales_kept; sales; sales_once; sales_kept; sales_kept];
     self := set_train_cache 0 (mixer (Some ["g"]));
     logged := [] |}.

(** What [df[keep_cols]] makes of [sales] followed by [sales] again,
    without grouping. *)
Definition sales_twice_plain : Frame :=
  {| columns := ["__mdb_original_t"; "y"];
     rows := rows sales_plain ++ rows sales_plain |}.

(** A process that holds [sales] and an ungrouped mixer that already has
    a model and a cache (the table [sales] itself). *)
Definition refitting : World :=
  {| heap := [sales];
     self := set_model (Pandas.flat_predictor 5) (set_train_cache 0 (mixer None));
     logged := [] |}.

(** An input without rows, and a process that holds it next to a cache
    but has no model. *)
Definition no_rows : Frame :=
  {| columns := ["__mdb_original_t"; "y"; "g"]; rows := [] |}.

Definition modelless : World :=
  {| heap := [sales_kept; no_rows; ask_a];
     self := set_train_cache 0 (mixer (Some ["g"]));
     logged := [] |}.

(** An interpreter in which the numeric encoder cannot be imported. *)
Definition without_numeric (module : string) : bool :=
  negb (bool_decide (module = "lightwood.encoders.numeric.numeric")).

(** The process of [serving_model] with a model that forecasts nothing. *)
Definition silent_model : World :=
  {| heap := [sales_kept; ask_a; ask_b];
     self := set_model (fun _ => Some [])
               (set_train_cache 0 (mixer (Some ["g"])));
     logged := [] |}.

(** The one row of [answer_a]. *)
Definition answer_a_row : OutRow :=
  {| prediction := Path [12 # 1; 12 # 1]%Q;
     lower := Path [24 # 10; 24 # 10]%Q;
     upper := Path [216 # 10; 216 # 10]%Q;
     index := 6;
     confidence := (9 # 10)%Q |}.

End Examples.

(* ===================================================================== *)
(** * Properties of the early-stop policy                                 *)
(* ===================================================================== *)

Section EarlyStopFacts.
Context {loss : Type} (gt : loss -> loss -> bool).
Import EarlyStop.

Lemma history_step self x :
  validation_loss_history (fst (on_validation_epoch_end gt self x))
  = validation_loss_history self ++ [x].
Proof.
  unfold on_validation_epoch_end.
  repeat (case_match; simpl; try reflexivity).
Qed.

Lemma patience_step self x :
  patience (fst (on_validation_epoch_end gt self x)) = patience self.
Proof.
  unfold on_validation_epoch_end.
  repeat (case_match; simpl; try reflexivity).
Qed.

Lemma counter_step_first self x :
  validation_loss_history self = [] ->
  counter (fst (on_validation_epoch_end gt self x)) = counter self.
Proof.
  intros H. unfold on_validation_epoch_end. simpl. rewrite H. simpl.
  case_match; reflexivity.
Qed.

Lemma counter_step_next self x h before :
  validation_loss_history self = h ++ [before] ->
  counter (fst (on_validation_epoch_end gt self x))
  = if gt x before then counter self + 1 else 0.
Proof.
  intros H. unfold on_validation_epoch_end. simpl. rewrite H.
  rewrite !length_app, !rev_app_distr. simpl.
  replace (1 <? length h + 1 + 1)%nat with true
    by (symmetry; apply Nat.ltb_lt; lia).
  destruct (gt x before); simpl; case_match; reflexivity.
Qed.

Lemma flag_step self x :
  snd (on_validation_epoch_end gt self x)
  = negb (counter (fst (on_validation_epoch_end gt self x))
          >=? patience (fst (on_validation_epoch_end gt self x))).
Proof.
  unfold on_validation_epoch_end. cbv zeta.
  match goal with |- context [counter ?s >=? _] => set (s1 := s) end.
  destruct (counter s1 >=? patience s1) eqn:E; simpl; now rewrite E.
Qed.

Lemma epochs_snoc self losses x :
  epochs gt self (losses ++ [x])
  = fst (on_validation_epoch_end gt (epochs gt self losses) x).
Proof. unfold epochs. now rewrite fold_left_app. Qed.

Lemma epochs_history self losses :
  validation_loss_history (epochs gt self losses)
  = validation_loss_history self ++ losses.
Proof.
  induction losses as [|x l IH] using rev_ind.
  - simpl. now rewrite app_nil_r.
  - rewrite epochs_snoc, history_step, IH. now rewrite app_assoc.
Qed.

Lemma epochs_counter p losses :
  counter (epochs gt (__init__ p) losses) = Z.of_nat (worsening_run gt (rev losses)).
Proof.
  induction losses as [|x l IH] using rev_ind; [reflexivity|].
  rewrite epochs_snoc, rev_app_distr. simpl.
  destruct l as [|y l'] using rev_ind.
  - now rewrite counter_step_first.
  - clear IHl'.
    rewrite (counter_step_next _ x l' y)
      by (now rewrite epochs_history).
    rewrite IH, rev_app_distr. simpl.
    destruct (gt x y); [lia | reflexivity].
Qed.

(** C1. The effective patience is [max 1 p], hence at least 1; each
    validation epoch appends its loss, increments the counter when the
    loss is strictly worse than the one before it and resets it to zero
    otherwise (the first epoch leaves it alone); the returned flag says
    continue exactly while the counter is below the patience and stop once
    it reaches it.  Over a run from the initial state the counter is the
    number of consecutive worsening epochs that end the run. *)
Theorem early_stop_patience_rule (p : Z) :
  (patience (@__init__ loss p) = Z.max 1 p
   /\ 1 <= patience (@__init__ loss p)
   /\ counter (@__init__ loss p) = 0
   /\ validation_loss_history (@__init__ loss p) = [])
  /\ (forall (s : t) (x : loss),
        let s' := fst (on_validation_epoch_end gt s x) in
        let continue := snd (on_validation_epoch_end gt s x) in
        patience s' = patience s
        /\ validation_loss_history s' = validation_loss_history s ++ [x]
        /\ counter s' = match rev (validation_loss_history s) with
                        | [] => counter s
                        | before :: _ => if gt x before then counter s + 1 else 0
                        end
        /\ (continue = true <-> counter s' < patience s')
        /\ (continue = false <-> patience s' <= counter s'))
  /\ (forall (losses : list loss) (x : loss),
        let s := epochs gt (__init__ p) losses in
        patience s = Z.max 1 p
        /\ counter s = Z.of_nat (worsening_run gt (rev losses))
        /\ snd (on_validation_epoch_end gt s x)
           = bool_decide (Z.of_nat (worsening_run gt (x :: rev losses)) < Z.max 1 p)).
Proof.
  split; [|split].
  - simpl. repeat split; lia.
  - intros s x s' continue. subst s' continue.
    split; [apply patience_step|].
    split; [apply history_step|].
    split.
    + destruct (validation_loss_history s) as [|y l] eqn:E using rev_ind.
      * simpl. now apply counter_step_first.
      * rewrite rev_app_distr. simpl. now apply (counter_step_next _ _ l y).
    + rewrite flag_step.
      destruct (Z.geb_spec (counter (fst (on_validation_epoch_end gt s x)))
                           (patience (fst (on_validation_epoch_end gt s x))));
        simpl; split; split; intros; try lia; try congruence.
  - intros losses x s. subst s.
    assert (Hp : patience (epochs gt (__init__ p) losses) = Z.max 1 p).
    { induction losses as [|y l IH] using rev_ind; [reflexivity|].
      now rewrite epochs_snoc, patience_step. }
    split; [exact Hp|].
    split; [apply epochs_counter|].
    rewrite flag_step, patience_step, Hp.
    rewrite <- epochs_snoc, epochs_counter, rev_app_distr. simpl rev at 1.
    simpl app.
    set (n := Z.of_nat (worsening_run gt (x :: rev losses))).
    destruct (Z.geb_spec n (Z.max 1 p));
      cbn [negb]; symmetry;
      [apply bool_decide_eq_false | apply bool_decide_eq_true]; lia.
Qed.

End EarlyStopFacts.

(* ===================================================================== *)
(** * Properties of the encoder registry                                  *)
(* ===================================================================== *)

Section RegistryFacts.
Import Encoders.

Lemma required_importable (importable : string -> bool) :
  Forall (fun entry => importable (fst entry) = true) required ->
  forall m, body importable m
            = body (interpreter (importable cesium_ts) (importable audio)) m.
Proof.
  intros Hreq m. unfold required in Hreq.
  repeat match goal with
         | H : Forall _ (_ :: _) |- _ =>
             apply Forall_cons in H; destruct H as [? H]
         end.
  simpl fst in *.
  unfold body, required. cbn [foldr]. unfold import_from.
  repeat match goal with H : importable _ = true |- _ => rewrite H; clear H end.
  reflexivity.
Qed.

Lemma load_ignores_other_modules (importable : string -> bool) :
  Forall (fun entry => importable (fst entry) = true) required ->
  load importable = load (interpreter (importable cesium_ts) (importable audio)).
Proof.
  intros Hreq. unfold load. now rewrite (required_importable _ Hreq).
Qed.

Lemma load_by_cases (with_cesium with_audio : bool) :
  let loaded := load (interpreter with_cesium with_audio) in
  (m ← loaded; flag m) = Some (with_cesium && with_audio)
  /\ (m ← loaded; Some (stdout m))
     = Some (if with_cesium && with_audio then []
             else ["Time series encoders can't be loaded"])
  /\ (m ← loaded; category m "TimeSeries")
     = Some (if with_cesium && with_audio
             then {[ "TsFreshTsEncoder"; "CesiumTsEncoder" ]}
             else {[ "TsFreshTsEncoder" ]})
  /\ (m ← loaded; category m "Audio")
     = Some (if with_cesium && with_audio
             then {[ "AmplitudeTsEncoder" ]} else ∅)
  /\ (m ← loaded; category m "DateTime") = Some {[ "DatetimeEncoder" ]}
  /\ (m ← loaded; category m "Image")
     = Some {[ "Img2VecEncoder"; "NnAutoEncoder" ]}
  /\ (m ← loaded; category m "Numeric") = Some {[ "NumericEncoder" ]}
  /\ (m ← loaded; category m "Text")
     = Some {[ "InferSentEncoder"; "RnnEncoder" ]}
  /\ (m ← loaded; category m "Categorical")
     = Some {[ "OneHotEncoder"; "CategoricalAutoEncoder" ]}.
Proof.
  destruct with_cesium, with_audio; cbv zeta; repeat split; compute_done.
Qed.

(** C9. In an interpreter where the nine unconditional imports succeed,
    importing the registry never raises, whatever happens to the two
    optional imports.  The flag [export_optional_encoder] is true exactly
    when both optional imports succeed; otherwise one warning line is
    printed and [CesiumTsEncoder] and [AmplitudeTsEncoder], and only
    they, are missing from their categories. *)
Theorem registry_loads_without_optional_encoders (importable : string -> bool) :
  Forall (fun entry => importable (fst entry) = true) required ->
  exists m,
    load importable = Some m
    /\ flag m = Some (importable cesium_ts && importable audio)
    /\ stdout m = (if importable cesium_ts && importable audio then []
                   else ["Time series encoders can't be loaded"])
    /\ category m "TimeSeries"
       = Some (if importable cesium_ts && importable audio
               then {[ "TsFreshTsEncoder"; "CesiumTsEncoder" ]}
               else {[ "TsFreshTsEncoder" ]})
    /\ category m "Audio"
       = Some (if importable cesium_ts && importable audio
               then {[ "AmplitudeTsEncoder" ]} else ∅)
    /\ category m "DateTime" = Some {[ "DatetimeEncoder" ]}
    /\ category m "Image" = Some {[ "Img2VecEncoder"; "NnAutoEncoder" ]}
    /\ category m "Numeric" = Some {[ "NumericEncoder" ]}
    /\ category m "Text" = Some {[ "InferSentEncoder"; "RnnEncoder" ]}
    /\ category m "Categorical"
       = Some {[ "OneHotEncoder"; "CategoricalAutoEncoder" ]}.
Proof.
  intros Hreq. rewrite (load_ignores_other_modules _ Hreq).
  pose proof (load_by_cases (importable cesium_ts) (importable audio)) as Hm.
  cbv zeta in Hm.
  destruct (load _) as [m|]; simpl in Hm.
  - exists m. split; [reflexivity|].
    destruct Hm as (H1 & H2 & H3 & H4 & H5 & H6 & H7 & H8 & H9).
    injection H2 as H2. repeat split; assumption.
  - destruct Hm as [Hm _]. discriminate Hm.
Qed.

(** The theorem at an interpreter that has [cesium_ts] but lacks [audio]. *)
Lemma registry_loads_without_audio :
  exists m,
    load (interpreter true false) = Some m
    /\ flag m = Some false
    /\ stdout m = ["Time series encoders can't be loaded"]
    /\ category m "TimeSeries" = Some {[ "TsFreshTsEncoder" ]}
    /\ category m "Audio" = Some ∅.
Proof.
  destruct (registry_loads_without_optional_encoders (interpreter true false))
    as (m & Hm & Hflag & Hout & Hts & Haudio & _).
  - unfold required. repeat constructor.
  - exists m. split; [exact Hm|]. split; [exact Hflag|].
    split; [exact Hout|]. split; [exact Hts | exact Haudio].
Defined.

End RegistryFacts.

(* ===================================================================== *)
(** * Properties of the data-frame operations                             *)
(* ===================================================================== *)

Section FrameFacts.

Lemma col_index_lookup c cols i :
  col_index c cols = Some i -> cols !! i = Some c.
Proof.
  revert i. induction cols as [|c' cols IH]; intros i; simpl; [discriminate|].
  destruct (decide (c = c')) as [->|Hne].
  - intros [= <-]. reflexivity.
  - destruct (col_index c cols) as [j|]; simpl; [|discriminate].
    intros [= <-]. simpl. now apply IH.
Qed.

Lemma col_index_elem c cols :
  c ∈ cols -> exists i, col_index c cols = Some i.
Proof.
  induction cols as [|c' cols IH]; intros Hin.
  - inversion Hin.
  - simpl. destruct (decide (c = c')) as [->|Hne]; [eauto|].
    apply elem_of_cons in Hin as [?|Hin]; [contradiction|].
    destruct (IH Hin) as [i ->]. simpl. eauto.
Qed.

Lemma select_columns_columns keep f sub :
  select_columns keep f = Some sub -> columns sub = keep.
Proof.
  unfold select_columns. destruct (mapM _ keep); simpl; [|discriminate].
  now intros [= <-].
Qed.

Lemma select_columns_labels keep f sub :
  select_columns keep f = Some sub -> map label (rows sub) = map label (rows f).
Proof.
  unfold select_columns. destruct (mapM _ keep); simpl; [|discriminate].
  intros [= <-]. simpl. rewrite map_map. reflexivity.
Qed.

(** A selected column holds what it held in the original frame. *)
Lemma select_columns_column keep f sub c :
  select_columns keep f = Some sub -> c ∈ keep -> column c sub = column c f.
Proof.
  unfold select_columns.
  destruct (mapM _ keep) as [positions|] eqn:Hpos; simpl; [|discriminate].
  intros [= <-] Hin. apply mapM_Some in Hpos.
  destruct (col_index_elem _ _ Hin) as [i Hi].
  pose proof (col_index_lookup _ _ _ Hi) as Hki.
  destruct (Forall2_lookup_l _ _ _ _ _ Hpos Hki) as (p & Hp & Hcp).
  unfold column. simpl. rewrite Hi, Hcp. simpl. f_equal.
  rewrite map_map. apply map_ext. intros r.
  unfold cell_at at 1. simpl.
  change (map (fun i0 => cell_at i0 r) positions)
    with ((fun i0 => cell_at i0 r) <$> positions).
  rewrite list_lookup_fmap, Hp. reflexivity.
Qed.

Lemma select_columns_well_formed keep f sub :
  select_columns keep f = Some sub -> well_formed sub.
Proof.
  unfold select_columns, well_formed.
  destruct (mapM _ keep) as [positions|] eqn:Hpos; simpl; [|discriminate].
  intros [= <-]. simpl. apply Forall_forall. intros r Hr.
  apply list_elem_of_In, in_map_iff in Hr as (r0 & <- & _). simpl.
  rewrite length_map. symmetry. now apply length_mapM with (fun c => col_index c (columns f)).
Qed.

Lemma isin_rows_columns c groups f fr :
  isin_rows c groups f = Some fr -> columns fr = columns f.
Proof.
  unfold isin_rows. destruct (col_index c (columns f)); simpl; [|discriminate].
  destruct groups; simpl; [|discriminate]. now intros [= <-].
Qed.

Lemma isin_rows_well_formed c groups f fr :
  isin_rows c groups f = Some fr -> well_formed f -> well_formed fr.
Proof.
  unfold isin_rows, well_formed.
  destruct (col_index c (columns f)); simpl; [|discriminate].
  destruct groups; simpl; [|discriminate]. intros [= <-]. simpl.
  rewrite !Forall_forall. intros Hf r Hr. apply Hf.
  apply list_elem_of_In. apply list_elem_of_In, filter_In in Hr. tauto.
Qed.

Lemma col_index_nodup cols i c :
  NoDup cols -> cols !! i = Some c -> col_index c cols = Some i.
Proof.
  revert i. induction cols as [|c' cols IH]; intros i Hnd; [discriminate|].
  apply NoDup_cons in Hnd as [Hnin Hnd].
  destruct i as [|i]; simpl.
  - intros [= ->]. now rewrite decide_True.
  - intros Hi. destruct (decide (c = c')) as [->|Hne].
    + exfalso. apply Hnin. now apply list_elem_of_lookup_2 with i.
    + now rewrite (IH _ Hnd Hi).
Qed.

(** Laid out over its own columns, a row is what it was. *)
Lemma relayout_same cols r :
  NoDup cols -> length (cells r) = length cols -> relayout cols cols r = r.
Proof.
  intros Hnd Hlen. destruct r as [lbl cs]. unfold relayout. simpl in *. f_equal.
  apply list_eq. intros i.
  change (map ?g cols) with (g <$> cols). rewrite list_lookup_fmap.
  destruct (cols !! i) as [c|] eqn:Hc; simpl.
  - rewrite (col_index_nodup _ _ _ Hnd Hc). unfold cell_at. simpl.
    destruct (cs !! i) eqn:Hcs; simpl; [reflexivity|].
    apply lookup_ge_None in Hcs. apply lookup_lt_Some in Hc. lia.
  - apply lookup_ge_None in Hc. symmetry. apply lookup_ge_None. lia.
Qed.

Lemma filter_known (known l : list string) :
  (forall c, c ∈ l -> c ∈ known) ->
  List.filter (fun c => negb (bool_decide (c ∈ known))) l = [].
Proof.
  induction l as [|c l IH]; intros Hl; simpl; [reflexivity|].
  rewrite bool_decide_true by (apply Hl; left). simpl.
  apply IH. intros c' Hc'. apply Hl. now right.
Qed.

Lemma relayout_all cols l :
  NoDup cols -> Forall (fun r => length (cells r) = length cols) l ->
  map (relayout cols cols) l = l.
Proof.
  intros Hnd. induction 1 as [|r l Hr _ IH]; simpl; [reflexivity|].
  now rewrite relayout_same, IH.
Qed.

(** Two tables with the same columns are put end to end. *)
Lemma concat_same_columns a b :
  columns b = columns a -> NoDup (columns a) -> well_formed a -> well_formed b ->
  concat a b = {| columns := columns a; rows := rows a ++ rows b |}.
Proof.
  unfold well_formed, concat. intros Hcols Hnd Ha Hb. rewrite Hcols in *.
  rewrite filter_known by auto. rewrite app_nil_r.
  now rewrite !relayout_all.
Qed.

Lemma concat_labels a b :
  map label (rows (concat a b)) = map label (rows a) ++ map label (rows b).
Proof.
  unfold concat. simpl. rewrite map_app, !map_map. reflexivity.
Qed.



Lemma insert_row_perm r l : Permutation (insert_row r l) (r :: l).
Proof.
  induction l as [|x l IH]; simpl; [reflexivity|].
  destruct (label r <=? label x); [reflexivity|].
  rewrite IH. apply perm_swap.
Qed.

Lemma sort_rows_perm l : Permutation (sort_rows l) l.
Proof.
  induction l as [|x l IH]; simpl; [reflexivity|].
  rewrite insert_row_perm. now apply perm_skip.
Qed.

Lemma insert_row_by_label r l : by_label l -> by_label (insert_row r l).
Proof.
  unfold by_label. induction l as [|x l IH]; intros Hs; simpl.
  - repeat constructor.
  - destruct (Z.leb_spec (label r) (label x)).
    + constructor; [exact Hs|]. now constructor.
    + inversion Hs as [|? ? Hl Hhd]; subst.
      constructor; [now apply IH|].
      destruct l as [|y l]; simpl.
      * constructor. lia.
      * destruct (Z.leb_spec (label r) (label y)); constructor;
          [lia|]. now inversion Hhd.
Qed.

Lemma sort_rows_by_label l : by_label (sort_rows l).
Proof.
  induction l as [|x l IH]; simpl; [constructor|].
  now apply insert_row_by_label.
Qed.

Lemma by_label_bound x l :
  by_label (x :: l) -> Forall (fun r => label x <= label r) l.
Proof.
  unfold by_label. intros Hs.
  apply Sorted_StronglySorted in Hs; [|intros a b c; lia].
  now inversion Hs.
Qed.

Lemma insert_row_first x l :
  Forall (fun r => label x <= label r) l -> insert_row x l = x :: l.
Proof.
  destruct l as [|y l]; [reflexivity|]. intros Hall. simpl.
  inversion Hall; subst.
  destruct (Z.leb_spec (label x) (label y)); [reflexivity | lia].
Qed.

(** ** Thinning: removing later copies of rows *)

Lemma thinned_weaken seen seen' l l' :
  thinned seen l l' -> seen ⊆ seen' -> thinned seen' l l'.
Proof.
  intros Ht. revert seen'.
  induction Ht as [seen|seen r l l' Ht IH|seen r l l' Hex Ht IH]; intros seen' Hsub.
  - constructor.
  - apply thinned_keep. apply IH. intros a Ha.
    apply elem_of_cons in Ha as [->|Ha]; [left | right; now apply Hsub].
  - apply thinned_drop; [|now apply IH].
    apply Exists_exists in Hex as (r0 & Hin & Hr0).
    apply Exists_exists. exists r0. split; [now apply Hsub | exact Hr0].
Qed.

Lemma thinned_subset seen l l' :
  thinned seen l l' -> l' ⊆ l.
Proof.
  induction 1 as [seen|seen r l l' Ht IH|seen r l l' Hex Ht IH]; intros a Ha.
  - exact Ha.
  - apply elem_of_cons in Ha as [->|Ha]; [left | right; now apply IH].
  - right. now apply IH.
Qed.

Lemma thinned_bound seen l l' (P : Row -> Prop) :
  thinned seen l l' -> Forall P l -> Forall P l'.
Proof.
  intros Ht Hall. apply Forall_forall. intros a Ha.
  rewrite Forall_forall in Hall. apply Hall.
  now apply (thinned_subset _ _ _ Ht).
Qed.

(** A row both lists receive: the copies it vouches for stay vouched. *)
Lemma thinned_insert_both_gen x sx l l' :
  thinned sx l l' ->
  forall seen, sx ⊆ x :: seen -> by_label l ->
  thinned seen (insert_row x l) (insert_row x l').
Proof.
  induction 1 as [sx|sx r l l' Ht IH|sx r l l' Hex Ht IH];
    intros seen Hsub Hs.
  - simpl. apply thinned_keep. constructor.
  - assert (Hl : by_label l) by (now inversion Hs).
    simpl. destruct (Z.leb_spec (label x) (label r)).
    + apply thinned_keep. apply thinned_keep.
      apply (thinned_weaken _ _ _ _ Ht). intros a Ha.
      apply elem_of_cons in Ha as [->|Ha]; [left|].
      right. apply Hsub in Ha. exact Ha.
    + apply thinned_keep. apply IH; [|exact Hl]. intros a Ha.
      apply elem_of_cons in Ha as [->|Ha]; [right; left|].
      apply Hsub in Ha. apply elem_of_cons in Ha as [->|Ha]; [left|].
      right. now right.
  - assert (Hl : by_label l) by (now inversion Hs).
    simpl. destruct (Z.leb_spec (label x) (label r)) as [Hle|Hlt].
    + rewrite insert_row_first.
      * apply thinned_keep. apply thinned_drop.
        -- apply Exists_exists in Hex as (r0 & Hin & Hr0).
           apply Exists_exists. exists r0. split; [now apply Hsub | exact Hr0].
        -- apply (thinned_weaken _ _ _ _ Ht). exact Hsub.
      * apply (thinned_bound _ _ _ _ Ht).
        eapply Forall_impl; [apply (by_label_bound _ _ Hs)|].
        simpl. intros a Ha. lia.
    + apply thinned_drop.
      * apply Exists_exists in Hex as (r0 & Hin & Hc & Hr0).
        apply Hsub in Hin. apply elem_of_cons in Hin as [->|Hin]; [lia|].
        apply Exists_exists. exists r0. auto.
      * now apply IH.
Qed.

Lemma thinned_insert_both x seen l l' :
  thinned (x :: seen) l l' -> by_label l ->
  thinned seen (insert_row x l) (insert_row x l').
Proof.
  intros Ht Hs. now apply (thinned_insert_both_gen x (x :: seen)).
Qed.

(** A row only the longer list receives, vouched for by a seen row. *)
Lemma thinned_insert_left x seen l l' :
  Exists (fun r0 => cells r0 = cells x /\ label r0 <= label x) seen ->
  thinned seen l l' ->
  thinned seen (insert_row x l) l'.
Proof.
  intros Hx Ht.
  induction Ht as [seen|seen r l l' Ht IH|seen r l l' Hex Ht IH]; simpl.
  - apply thinned_drop; [exact Hx | constructor].
  - destruct (label x <=? label r).
    + apply thinned_drop; [exact Hx|]. now apply thinned_keep.
    + apply thinned_keep. apply IH. now apply Exists_cons_tl.
  - destruct (label x <=? label r).
    + apply thinned_drop; [exact Hx|]. now apply thinned_drop.
    + apply thinned_drop; [exact Hex|]. now apply IH.
Qed.

Lemma thinned_sort seen l l' :
  thinned seen l l' -> thinned seen (sort_rows l) (sort_rows l').
Proof.
  induction 1 as [seen|seen r l l' Ht IH|seen r l l' Hex Ht IH]; simpl.
  - constructor.
  - apply thinned_insert_both; [exact IH | apply sort_rows_by_label].
  - now apply thinned_insert_left.
Qed.

Lemma thinned_dedup seen l l' :
  thinned seen l l' ->
  forall known, Forall (fun r => cells r ∈ known) seen ->
  dedup_rows known l = dedup_rows known l'.
Proof.
  induction 1 as [seen|seen r l l' Ht IH|seen r l l' Hex Ht IH];
    intros known Hknown; simpl.
  - reflexivity.
  - destruct (bool_decide (cells r ∈ known)) eqn:Hr.
    + apply IH. constructor; [|exact Hknown]. now apply bool_decide_eq_true in Hr.
    + f_equal. apply IH. constructor; [left|].
      eapply Forall_impl; [exact Hknown|]. simpl. intros a Ha. now right.
  - apply Exists_exists in Hex as (r0 & Hin & Hcells & _).
    pose proof (proj1 (Forall_forall _ _) Hknown r0 Hin) as Hr0. simpl in Hr0.
    rewrite Hcells in Hr0.
    rewrite bool_decide_eq_true_2 by exact Hr0.
    now apply IH.
Qed.

Lemma thinned_map (h : Row -> Row) seen l l' :
  (forall r, label (h r) = label r) ->
  (forall a b, cells a = cells b -> cells (h a) = cells (h b)) ->
  thinned seen l l' -> thinned (map h seen) (map h l) (map h l').
Proof.
  intros Hlabel Hcells.
  induction 1 as [seen|seen r l l' Ht IH|seen r l l' Hex Ht IH]; simpl.
  - constructor.
  - apply thinned_keep. exact IH.
  - apply thinned_drop; [|exact IH].
    apply Exists_exists in Hex as (r0 & Hin & Hc & Hl).
    apply Exists_exists. exists (h r0). split; [now apply list_elem_of_fmap_2|].
    split; [now apply Hcells | rewrite !Hlabel; exact Hl].
Qed.

Lemma thinned_prefix l l' :
  thinned [] l l' -> forall p seen, thinned seen (p ++ l) (p ++ l').
Proof.
  intros Ht p. induction p as [|a p IH]; intros seen; simpl.
  - apply (thinned_weaken [] seen _ _ Ht). intros a Ha. inversion Ha.
  - apply thinned_keep. apply IH.
Qed.

(** De-duplication thins a list whose copies come in label order. *)
Lemma thinned_dedup_rows l :
  forall seen known,
    (forall c, c ∈ known ->
       exists r0, r0 ∈ seen /\ cells r0 = c
                  /\ Forall (fun r => cells r = c -> label r0 <= label r) l) ->
    copies_in_label_order l = true ->
    thinned seen l (dedup_rows known l).
Proof.
  induction l as [|r l IH]; intros seen known Hknown Hord; simpl.
  - constructor.
  - simpl in Hord. apply andb_true_iff in Hord as [Hhead Hord].
    destruct (bool_decide (cells r ∈ known)) eqn:Hr.
    + apply bool_decide_eq_true in Hr.
      destruct (Hknown _ Hr) as (r0 & Hin & Hc & Hall).
      apply thinned_drop.
      * apply Exists_exists. exists r0. split; [exact Hin|].
        split; [exact Hc|]. inversion Hall; subst. auto.
      * apply IH; [|exact Hord]. intros c Hcin.
        destruct (Hknown _ Hcin) as (r1 & Hin1 & Hc1 & Hall1).
        exists r1. split; [exact Hin1|]. split; [exact Hc1|]. now inversion Hall1.
    + apply thinned_keep. apply IH; [|exact Hord]. intros c Hcin.
      apply elem_of_cons in Hcin as [->|Hcin].
      * exists r. split; [left|]. split; [reflexivity|].
        apply Forall_forall. intros r' Hr' Hc'.
        rewrite forallb_forall in Hhead.
        apply list_elem_of_In in Hr'. specialize (Hhead r' Hr').
        destruct (decide (cells r' = cells r)); [lia | contradiction].
      * destruct (Hknown _ Hcin) as (r1 & Hin1 & Hc1 & Hall1).
        exists r1. split; [now right|]. split; [exact Hc1|]. now inversion Hall1.
Qed.

Lemma dedup_rows_idempotent l :
  forall known known', known' ⊆ known ->
  dedup_rows known' (dedup_rows known l) = dedup_rows known l.
Proof.
  induction l as [|r l IH]; intros known known' Hsub; simpl; [reflexivity|].
  destruct (bool_decide (cells r ∈ known)) eqn:Hr.
  - now apply IH.
  - simpl. apply bool_decide_eq_false in Hr.
    rewrite bool_decide_eq_false_2 by (intros Hin; apply Hr; now apply Hsub).
    f_equal. apply IH. intros a Ha.
    apply elem_of_cons in Ha as [->|Ha]; [left | right; now apply Hsub].
Qed.

(** ** De-duplication of a table that is sorted by label *)

Lemma dedup_rows_subset known l : dedup_rows known l ⊆ l.
Proof.
  revert known. induction l as [|r l IH]; intros known a Ha; simpl in Ha;
    [exact Ha|].
  destruct (bool_decide (cells r ∈ known)).
  - right. now apply (IH known).
  - apply elem_of_cons in Ha as [->|Ha]; [left | right; now apply (IH _ _ Ha)].
Qed.

Lemma dedup_rows_fresh known l r : r ∈ dedup_rows known l -> cells r ∉ known.
Proof.
  revert known. induction l as [|x l IH]; intros known Hr; simpl in Hr;
    [inversion Hr|].
  destruct (bool_decide (cells x ∈ known)) eqn:Hx.
  - now apply IH.
  - apply bool_decide_eq_false in Hx.
    apply elem_of_cons in Hr as [->|Hr]; [exact Hx|].
    intros Hin. apply (IH _ Hr). now right.
Qed.

Lemma dedup_rows_nodup known l : NoDup (dedup_rows known l).
Proof.
  revert known. induction l as [|x l IH]; intros known; simpl; [constructor|].
  destruct (bool_decide (cells x ∈ known)); [apply IH|].
  apply NoDup_cons. split; [|apply IH].
  intros Hin. apply (dedup_rows_fresh _ _ _ Hin). now left.
Qed.

Lemma by_label_cons x l :
  Forall (fun r => label x <= label r) l -> by_label l -> by_label (x :: l).
Proof.
  intros Hall Hs. constructor; [exact Hs|].
  destruct Hall; constructor; assumption.
Qed.

Lemma dedup_rows_by_label known l : by_label l -> by_label (dedup_rows known l).
Proof.
  revert known. induction l as [|x l IH]; intros known Hs; simpl; [constructor|].
  assert (Hl : by_label l) by (now inversion Hs).
  destruct (bool_decide (cells x ∈ known)); [now apply IH|].
  apply by_label_cons; [|now apply IH].
  pose proof (by_label_bound _ _ Hs) as Hb.
  apply Forall_forall. intros r Hr. rewrite Forall_forall in Hb. apply Hb.
  now apply (dedup_rows_subset _ _ _ Hr).
Qed.

(** Of the copies of a row in a table sorted by label, de-duplication
    keeps one with the least label. *)
Lemma dedup_rows_least known l r :
  by_label l ->
  r ∈ dedup_rows known l
  <-> r ∈ l /\ (cells r ∉ known)
      /\ forall r', r' ∈ l -> cells r' = cells r -> label r <= label r'.
Proof.
  revert known. induction l as [|x l IH]; intros known Hs; simpl.
  - split; [intros Hr; inversion Hr | intros [Hr _]; inversion Hr].
  - assert (Hl : by_label l) by (now inversion Hs).
    pose proof (by_label_bound _ _ Hs) as Hb. rewrite Forall_forall in Hb.
    destruct (bool_decide (cells x ∈ known)) eqn:Hx.
    + apply bool_decide_eq_true in Hx. rewrite (IH known Hl). split.
      * intros (Hr & Hk & Hmin). split; [now right|]. split; [exact Hk|].
        intros r' Hr' Hc. apply elem_of_cons in Hr' as [->|Hr']; [|now apply Hmin].
        exfalso. apply Hk. now rewrite <- Hc.
      * intros (Hr & Hk & Hmin).
        apply elem_of_cons in Hr as [->|Hr]; [contradiction|].
        split; [exact Hr|]. split; [exact Hk|].
        intros r' Hr'. apply Hmin. now right.
    + apply bool_decide_eq_false in Hx.
      rewrite elem_of_cons, (IH (cells x :: known) Hl). split.
      * intros [->|(Hr & Hk & Hmin)].
        -- split; [now left|]. split; [exact Hx|].
           intros r' Hr' _.
           apply elem_of_cons in Hr' as [->|Hr']; [lia | now apply Hb].
        -- split; [now right|]. split; [intros Hin; apply Hk; now right|].
           intros r' Hr' Hc.
           apply elem_of_cons in Hr' as [->|Hr']; [|now apply Hmin].
           exfalso. apply Hk. rewrite <- Hc. left.
      * intros (Hr & Hk & Hmin).
        apply elem_of_cons in Hr as [->|Hr]; [now left|].
        destruct (decide (cells r = cells x)) as [Hc|Hc].
        -- left.
           assert (Hlabel : label r = label x).
           { apply Z.le_antisymm; [|now apply Hb].
             apply Hmin; [now left | now symmetry]. }
           destruct r, x; simpl in *; congruence.
        -- right. split; [exact Hr|]. split.
           ++ intros Hin. apply elem_of_cons in Hin as [?|?]; contradiction.
           ++ intros r' Hr'. apply Hmin. now right.
Qed.

(** Every row of the longer list has a copy in the thinned one, or among
    the rows seen before, whose label is not larger. *)
Lemma thinned_cover seen l l' :
  thinned seen l l' ->
  forall r, r ∈ l ->
  exists r0, (r0 ∈ seen \/ r0 ∈ l') /\ cells r0 = cells r /\ label r0 <= label r.
Proof.
  induction 1 as [seen|seen x l l' Ht IH|seen x l l' Hex Ht IH]; intros r Hr.
  - inversion Hr.
  - apply elem_of_cons in Hr as [->|Hr].
    + exists x. split; [right; now left|]. split; [reflexivity | lia].
    + destruct (IH r Hr) as (r0 & [Hin|Hin] & Hc & Hle).
      * apply elem_of_cons in Hin as [->|Hin].
        -- exists x. split; [right; now left|]. now split.
        -- exists r0. split; [now left|]. now split.
      * exists r0. split; [right; now right|]. now split.
  - apply elem_of_cons in Hr as [->|Hr].
    + apply Exists_exists in Hex as (r0 & Hin & Hc & Hle).
      exists r0. split; [now left|]. now split.
    + destruct (IH r Hr) as (r0 & Hin & Hc). exists r0.
      split; [exact Hin | exact Hc].
Qed.

(** However the rows of equal label are arranged, sorting a list and its
    thinning by label and dropping the duplicates leaves the same rows. *)
Lemma thinned_dedup_sorted l l' s s' :
  thinned [] l l' ->
  Permutation s l -> Permutation s' l' -> by_label s -> by_label s' ->
  Permutation (dedup_rows [] s) (dedup_rows [] s').
Proof.
  intros Ht Hs Hs' Hsorted Hsorted'.
  apply NoDup_Permutation; [apply dedup_rows_nodup | apply dedup_rows_nodup |].
  intros r. rewrite !dedup_rows_least by assumption.
  assert (Hin : forall a, a ∈ s <-> a ∈ l) by (intros a; now rewrite Hs).
  assert (Hin' : forall a, a ∈ s' <-> a ∈ l') by (intros a; now rewrite Hs').
  pose proof (thinned_subset _ _ _ Ht) as Hsub.
  pose proof (thinned_cover _ _ _ Ht) as Hcov.
  split.
  - intros (Hr & Hk & Hmin). apply Hin in Hr.
    destruct (Hcov r Hr) as (r0 & [Hr0|Hr0] & Hc & Hle); [inversion Hr0|].
    assert (Heq : r0 = r).
    { assert (label r <= label r0).
      { apply Hmin; [|exact Hc]. apply Hin. now apply Hsub. }
      destruct r, r0; simpl in *; f_equal; [lia | congruence]. }
    subst r0. split; [now apply Hin'|]. split; [exact Hk|].
    intros r' Hr' Hc'. apply Hmin; [|exact Hc'].
    apply Hin. apply Hsub. now apply Hin'.
  - intros (Hr & Hk & Hmin).
    split; [apply Hin; apply Hsub; now apply Hin'|].
    split; [exact Hk|]. intros r' Hr' Hc'. apply Hin in Hr'.
    destruct (Hcov r' Hr') as (r0 & [Hr0|Hr0] & Hc & Hle); [inversion Hr0|].
    assert (label r <= label r0) by (apply Hmin; [now apply Hin' | congruence]).
    lia.
Qed.

Lemma col_index_app_fresh c cols :
  col_index c cols = None -> col_index c (cols ++ [c]) = Some (length cols).
Proof.
  induction cols as [|c' cols IH]; simpl.
  - intros _. now rewrite decide_True.
  - destruct (decide (c = c')); [discriminate|].
    destruct (col_index c cols); simpl; [discriminate|].
    intros _. now rewrite IH.
Qed.

Lemma map_constant {A B} (g : A -> B) (v : B) (l : list A) :
  Forall (fun a => g a = v) l -> map g l = replicate (length l) v.
Proof.
  induction 1 as [|a l Ha Hl IH]; simpl; [reflexivity|]. now rewrite Ha, IH.
Qed.

(** [df[c] = v] leaves a frame that has column [c], constant at [v]. *)
Lemma assign_const_has_column c v f : c ∈ columns (assign_const c v f).
Proof.
  unfold assign_const. destruct (col_index c (columns f)) as [i|] eqn:Hi; simpl.
  - apply list_elem_of_lookup. exists i. now apply col_index_lookup.
  - apply elem_of_app. right. left.
Qed.

Lemma assign_const_column c v f :
  well_formed f ->
  column c (assign_const c v f) = Some (replicate (length (rows f)) v).
Proof.
  unfold well_formed, assign_const, column. intros Hwf.
  destruct (col_index c (columns f)) as [i|] eqn:Hi; simpl.
  - rewrite Hi. simpl. f_equal. rewrite map_map.
    apply map_constant. eapply Forall_impl; [exact Hwf|]. simpl.
    intros r Hr. unfold cell_at. simpl.
    rewrite list_lookup_insert_eq; [reflexivity|].
    rewrite Hr. apply lookup_lt_Some with c. now apply col_index_lookup.
  - rewrite (col_index_app_fresh _ _ Hi). simpl. f_equal. rewrite map_map.
    apply map_constant. eapply Forall_impl; [exact Hwf|]. simpl.
    intros r Hr. unfold cell_at. simpl.
    rewrite lookup_app_r by lia. rewrite Hr, Nat.sub_diag. reflexivity.
Qed.

End FrameFacts.

(* ===================================================================== *)
(** * Properties of the dataset builder                                   *)
(* ===================================================================== *)

Ltac run :=
  cbv beta iota zeta delta
    [mbind M_bind mret M_ret lift get_self modify_self alloc deref
     filtered_cache log_info read_data_frame];
  cbn [heap self logged fst snd].

Ltac run_in H :=
  cbv beta iota zeta delta
    [mbind M_bind mret M_ret lift get_self modify_self alloc deref
     filtered_cache log_info read_data_frame] in H;
  cbn [heap self logged fst snd] in H.

Section BuilderFacts.
Context `{Backend}.

Lemma gather_train w l f sub groups :
  heap w !! l = Some f ->
  select_columns (keep_cols (self w)) f = Some sub ->
  gather (Some l) true groups w = Some (sub, trained_world w sub).
Proof.
  intros Hl Hsub. unfold gather. run. rewrite Hl. run. rewrite Hsub. run.
  unfold trained_world. rewrite length_app, <- app_assoc. simpl.
  repeat f_equal. lia.
Qed.

Lemma cached_frame_trained w sub :
  cached_frame (trained_world w sub) = Some sub.
Proof.
  unfold cached_frame, trained_world. simpl.
  rewrite lookup_app_r by lia.
  replace (S (length (heap w)) - length (heap w))%nat with 1%nat by lia.
  reflexivity.
Qed.

Lemma gather_cached w groups cache :
  cached_frame w = Some cache ->
  gather None false groups w
  = (fr ← requested (self w) groups cache; Some (fr, w)).
Proof.
  unfold cached_frame, requested, gather. intros Hc. run.
  destruct (train_cache (self w)) as [c|] eqn:Hcache; simpl in Hc; [|discriminate].
  destruct (gby_of (ts_analysis (self w))); run; rewrite ?Hcache; run;
    rewrite Hc; [reflexivity|].
  destruct (isin_rows _ _ _); reflexivity.
Qed.

Lemma gather_history w groups cache l f sub fr :
  cached_frame w = Some cache ->
  heap w !! l = Some f ->
  select_columns (keep_cols (self w)) f = Some sub ->
  requested (self w) groups cache = Some fr ->
  gather (Some l) false groups w
  = Some (sort_index (concat fr sub),
          {| heap := heap w ++ [sub; sub]; self := self w; logged := logged w |}).
Proof.
  unfold cached_frame, requested, gather. intros Hc Hl Hsub Hfr. run.
  rewrite Hl. run. rewrite Hsub. run.
  destruct (train_cache (self w)) as [c|] eqn:Hcache; simpl in Hc; [|discriminate].
  assert (Hc' : ((heap w ++ [sub]) ++ [sub]) !! c = Some cache).
  { rewrite <- app_assoc. rewrite lookup_app_l; [exact Hc|].
    now apply lookup_lt_Some with cache. }
  destruct (gby_of (ts_analysis (self w))); run; rewrite ?Hcache; run;
    rewrite Hc'; run.
  - injection Hfr as ->. now rewrite <- app_assoc.
  - rewrite Hfr. now rewrite <- app_assoc.
Qed.

Lemma requested_columns s groups cache fr :
  requested s groups cache = Some fr -> columns fr = columns cache.
Proof.
  unfold requested. destruct (gby_of (ts_analysis s)).
  - now intros [= <-].
  - apply isin_rows_columns.
Qed.

Lemma requested_well_formed s groups cache fr :
  requested s groups cache = Some fr -> well_formed cache -> well_formed fr.
Proof.
  unfold requested. destruct (gby_of (ts_analysis s)).
  - now intros [= <-].
  - apply isin_rows_well_formed.
Qed.

(** C5. On an inference call with a cache in place: without a table the
    builder takes the cached table, restricted (when grouping is
    configured) to the rows whose first group-by column is among the
    requested groups; with a table it puts the order-by, target and
    group-by columns of that table after the restricted cache and sorts
    the rows by their index label.  The table that results has the labels
    of the restricted cache and of the new rows, in order; when the cache
    has the columns the builder keeps, as a cache this mixer stored has,
    its rows are those of the restricted cache and the new rows
    themselves.  The cache is left as it was. *)
Theorem inference_frame_from_cache (w : World) (groups : option (list Value))
    (cache : Frame) :
  sorts_by_label ->
  cached_frame w = Some cache ->
  gather None false groups w
  = (fr ← requested (self w) groups cache; Some (fr, w))
  /\ (forall g rest fr,
        gby_of (ts_analysis (self w)) = g :: rest ->
        requested (self w) groups cache = Some fr ->
        exists i gs,
          col_index g (columns cache) = Some i
          /\ groups = Some gs
          /\ columns fr = columns cache
          /\ rows fr
             = List.filter (fun r => bool_decide (cell_at i r ∈ gs)) (rows cache))
  /\ (gby_of (ts_analysis (self w)) = [] ->
      requested (self w) groups cache = Some cache)
  /\ (forall l f sub fr,
        heap w !! l = Some f ->
        select_columns (keep_cols (self w)) f = Some sub ->
        requested (self w) groups cache = Some fr ->
        exists df w',
          gather (Some l) false groups w = Some (df, w')
          /\ df = sort_index (concat fr sub)
          /\ self w' = self w
          /\ cached_frame w' = Some cache
          /\ columns sub = keep_cols (self w)
          /\ map label (rows sub) = map label (rows f)
          /\ (forall col, col ∈ keep_cols (self w) -> column col sub = column col f)
          /\ columns df
             = columns fr
               ++ List.filter (fun c => negb (bool_decide (c ∈ columns fr)))
                              (columns sub)
          /\ by_label (rows df)
          /\ Permutation (map label (rows df))
                         (map label (rows fr) ++ map label (rows sub))
          /\ (columns cache = keep_cols (self w) ->
              NoDup (keep_cols (self w)) ->
              well_formed cache ->
              columns df = keep_cols (self w)
              /\ Permutation (rows df) (rows fr ++ rows sub))).
Proof.
  intros Hsorts Hc.
  split; [now apply gather_cached|].
  split.
  { intros g rest fr Hg. unfold requested, isin_rows. rewrite Hg.
    destruct (col_index g (columns cache)) as [i|]; simpl; [|discriminate].
    destruct groups as [gs|]; simpl; [|discriminate].
    intros [= <-]. exists i, gs. repeat split. }
  split.
  { intros Hg. unfold requested. now rewrite Hg. }
  intros l f sub fr Hl Hsub Hfr.
  destruct (Hsorts (concat fr sub)) as (Hcols & Hsorted & Hperm).
  exists (sort_index (concat fr sub)),
    {| heap := heap w ++ [sub; sub]; self := self w; logged := logged w |}.
  split; [now apply gather_history with cache f|].
  split; [reflexivity|].
  split; [reflexivity|].
  split.
  { unfold cached_frame in *. simpl.
    destruct (train_cache (self w)) as [c|]; simpl in *; [|discriminate].
    rewrite lookup_app_l; [exact Hc|]. now apply lookup_lt_Some with cache. }
  split; [now apply select_columns_columns with f|].
  split; [now apply select_columns_labels with (keep_cols (self w))|].
  split; [intros col Hcol; now apply select_columns_column with (keep_cols (self w))|].
  split; [exact Hcols|].
  split; [exact Hsorted|].
  split.
  { rewrite <- concat_labels. now apply Permutation_map. }
  intros Hshape Hnd Hwf.
  pose proof (select_columns_columns _ _ _ Hsub) as Hsubcols.
  pose proof (requested_columns _ _ _ _ Hfr) as Hfrcols.
  assert (Hjoin : concat fr sub
                  = {| columns := columns fr; rows := rows fr ++ rows sub |}).
  { apply concat_same_columns.
    - now rewrite Hsubcols, Hfrcols.
    - now rewrite Hfrcols, Hshape.
    - now apply requested_well_formed with (self w) groups cache.
    - now apply select_columns_well_formed with (keep_cols (self w)) f. }
  rewrite Hjoin in Hcols, Hperm |- *. simpl in Hcols, Hperm.
  split; [now rewrite Hcols, Hfrcols | exact Hperm].
Qed.

Lemma dedup_on_map (key : Row -> list Value) (proj : Row -> Row) l :
  (forall r, cells (proj r) = key r) ->
  forall known, map proj (dedup_on key known l) = dedup_rows known (map proj l).
Proof.
  intros Hkey. induction l as [|r l IH]; intros known; simpl; [reflexivity|].
  rewrite Hkey. destruct (bool_decide (key r ∈ known)); simpl; [apply IH|].
  f_equal. apply IH.
Qed.

(** Selecting the key columns of a table without duplicates gives the
    de-duplicated selection of the table. *)
Lemma select_without_duplicates keep f f' sub :
  select_columns keep f = Some sub ->
  without_duplicates keep f = Some f' ->
  select_columns keep f'
  = Some {| columns := columns sub; rows := dedup_rows [] (rows sub) |}.
Proof.
  unfold select_columns, without_duplicates.
  destruct (mapM _ keep) as [positions|] eqn:Hpos; simpl; [|discriminate].
  intros [= <-] [= <-]. simpl. rewrite Hpos. simpl. f_equal. f_equal.
  now rewrite (dedup_on_map (fun r => map (fun i => cell_at i r) positions)).
Qed.

Lemma without_duplicates_selects keep f f' :
  without_duplicates keep f = Some f' -> exists sub, select_columns keep f = Some sub.
Proof.
  unfold select_columns, without_duplicates.
  destruct (mapM _ keep); simpl; [eauto | discriminate].
Qed.

Lemma gather_inference w l f sub groups :
  heap w !! l = Some f ->
  select_columns (keep_cols (self w)) f = Some sub ->
  cache_allocated w ->
  gather (Some l) false groups w
  = (before ← prior w groups;
     Some (sort_index (joined before sub),
           {| heap := heap w ++ [sub; sub]; self := self w; logged := logged w |})).
Proof.
  unfold cache_allocated, prior, gather. intros Hl Hsub Hc. run.
  rewrite Hl. run. rewrite Hsub. run.
  destruct (train_cache (self w)) as [c|] eqn:Hcache.
  - assert (Hc' : ((heap w ++ [sub]) ++ [sub]) !! c = heap w !! c).
    { rewrite <- app_assoc. now rewrite lookup_app_l. }
    destruct (gby_of (ts_analysis (self w))); run; rewrite ?Hcache; run;
      rewrite Hc'; rewrite <- app_assoc; simpl;
      destruct (heap w !! c); simpl; try reflexivity.
    destruct (isin_rows _ _ _); reflexivity.
  - destruct (gby_of (ts_analysis (self w))); run; rewrite ?Hcache; run;
      rewrite <- ?app_assoc; reflexivity.
Qed.

Lemma gather_keeps_settings df train groups w fr w' :
  gather df train groups w = Some (fr, w') ->
  target (self w') = target (self w)
  /\ ts_analysis (self w') = ts_analysis (self w).
Proof.
  unfold gather. run. intros Hg.
  repeat match type of Hg with
         | context [match ?x with _ => _ end] =>
             lazymatch x with
             | context [match _ with _ => _ end] => fail
             | _ => destruct x; run_in Hg
             end
         end;
    try discriminate; injection Hg as <- <-; split; reflexivity.
Qed.

Lemma build_ext (s s' : GluonTSMixer) fr :
  target s = target s' -> ts_analysis s = ts_analysis s' -> build s fr = build s' fr.
Proof. unfold build. now intros -> ->. Qed.

Lemma relayout_label from to r : label (relayout from to r) = label r.
Proof. reflexivity. Qed.

Lemma relayout_cells from to a b :
  cells a = cells b -> cells (relayout from to a) = cells (relayout from to b).
Proof.
  intros Hab. unfold relayout, cell_at. simpl. now rewrite Hab.
Qed.

(** The rows of the cache joined with the de-duplication of a selection
    thin those of the cache joined with the selection itself. *)
Lemma joined_thinned before sub :
  copies_in_label_order (rows sub) = true ->
  thinned [] (rows (joined before sub))
             (rows (joined before {| columns := columns sub;
                                     rows := dedup_rows [] (rows sub) |})).
Proof.
  intros Hord.
  assert (Ht : thinned [] (rows sub) (dedup_rows [] (rows sub))).
  { apply thinned_dedup_rows; [|exact Hord]. intros c Hc. inversion Hc. }
  destruct before as [fr|]; simpl; [|exact Ht].
  apply thinned_prefix.
  apply (thinned_map _ [] _ _ (relayout_label _ _) (relayout_cells _ _) Ht).
Qed.

(** Joining the cache with a selection, or with its de-duplication, and
    sorting by label with a stable sort gives the same rows once
    duplicates are dropped. *)
Lemma joined_dedup before sub :
  copies_in_label_order (rows sub) = true ->
  drop_duplicates (stable_sort_index (joined before sub))
  = drop_duplicates
      (stable_sort_index (joined before {| columns := columns sub;
                                           rows := dedup_rows [] (rows sub) |})).
Proof.
  intros Hord. pose proof (joined_thinned before sub Hord) as Ht.
  unfold drop_duplicates, stable_sort_index.
  f_equal; [now destruct before|].
  apply (thinned_dedup []); [|constructor]. now apply thinned_sort.
Qed.

(** With any sort by label they give the same rows up to the order of
    those that carry the same label. *)
Lemma joined_dedup_sorted before sub :
  sorts_by_label ->
  copies_in_label_order (rows sub) = true ->
  let once := {| columns := columns sub; rows := dedup_rows [] (rows sub) |} in
  columns (drop_duplicates (sort_index (joined before sub)))
  = columns (drop_duplicates (sort_index (joined before once)))
  /\ by_label (rows (drop_duplicates (sort_index (joined before sub))))
  /\ by_label (rows (drop_duplicates (sort_index (joined before once))))
  /\ Permutation (rows (drop_duplicates (sort_index (joined before sub))))
                 (rows (drop_duplicates (sort_index (joined before once)))).
Proof.
  intros Hsorts Hord once.
  pose proof (joined_thinned before sub Hord) as Ht. fold once in Ht.
  destruct (Hsorts (joined before sub)) as (Hcols & Hsorted & Hperm).
  destruct (Hsorts (joined before once)) as (Hcols' & Hsorted' & Hperm').
  unfold drop_duplicates. simpl.
  split; [rewrite Hcols, Hcols'; now destruct before|].
  split; [now apply dedup_rows_by_label|].
  split; [now apply dedup_rows_by_label|].
  now apply thinned_dedup_sorted with (rows (joined before sub))
                                      (rows (joined before once)).
Qed.

Lemma make_initial_ds_unfold df train groups w :
  _make_initial_ds df train groups w
  = match gather df train groups w with
    | Some (fr, w') =>
        match build (self w') fr with
        | Some d => Some (d, w')
        | None => None
        end
    | None => None
    end.
Proof.
  unfold _make_initial_ds. run.
  destruct (gather df train groups w) as [[fr w']|]; reflexivity.
Qed.

(** C6. A training call keeps the order-by, target and group-by columns of
    the input table and caches a deep copy of that sub-table: the cache is
    a new object, distinct from the input and from every frame that
    existed before, so that no later mutation of the caller's frame
    reaches it; and what it holds is determined by the input table and
    the configured columns alone, whatever was cached before. *)
Theorem training_caches_deep_copy (w : World) (l : nat) (f sub : Frame)
    (groups : option (list Value)) :
  heap w !! l = Some f ->
  select_columns (keep_cols (self w)) f = Some sub ->
  exists w' c,
    gather (Some l) true groups w = Some (sub, w')
    /\ columns sub
       = String.append "__mdb_original_" (order_by (tss (ts_analysis (self w))))
         :: target (self w) :: gby_of (ts_analysis (self w))
    /\ map label (rows sub) = map label (rows f)
    /\ (forall col, col ∈ keep_cols (self w) -> column col sub = column col f)
    /\ train_cache (self w') = Some c
    /\ heap w' !! c = Some sub
    /\ heap w !! c = None
    /\ c <> l
    /\ (forall j g, heap w !! j = Some g -> heap w' !! j = Some g)
    /\ (forall f', cached_frame (mutate l f' w') = Some sub)
    /\ (forall d w'',
          _make_initial_ds (Some l) true groups w = Some (d, w'')
          <-> w'' = w' /\ build (self w) sub = Some d)
    /\ (forall w2,
          heap w2 !! l = Some f ->
          keep_cols (self w2) = keep_cols (self w) ->
          exists w2',
            gather (Some l) true groups w2 = Some (sub, w2')
            /\ cached_frame w2' = Some sub).
Proof.
  intros Hl Hsub.
  pose proof (lookup_lt_Some _ _ _ Hl) as Hlt.
  exists (trained_world w sub), (S (length (heap w))).
  split; [now apply gather_train with f|].
  split; [now apply select_columns_columns with f|].
  split; [now apply select_columns_labels with (keep_cols (self w))|].
  split; [intros col Hcol; now apply select_columns_column with (keep_cols (self w))|].
  split; [reflexivity|].
  split; [apply (cached_frame_trained w sub)|].
  split; [apply lookup_ge_None; lia|].
  split; [lia|].
  split.
  { intros j g Hj. simpl. rewrite lookup_app_l; [exact Hj|].
    now apply lookup_lt_Some with g. }
  split.
  { intros f'. unfold cached_frame, mutate. simpl.
    rewrite list_lookup_insert_ne by lia.
    apply (cached_frame_trained w sub). }
  split.
  { intros d w''. rewrite make_initial_ds_unfold.
    rewrite (gather_train _ _ _ _ _ Hl Hsub).
    rewrite (build_ext (self (trained_world w sub)) (self w)) by reflexivity.
    destruct (build (self w) sub) as [d0|]; split.
    - intros [= <- <-]. split; reflexivity.
    - intros [<- [= <-]]. reflexivity.
    - discriminate.
    - intros [_ Hd]. discriminate Hd. }
  intros w2 Hl2 Hkeep. exists (trained_world w2 sub). split.
  - apply gather_train with f; [exact Hl2|]. now rewrite Hkeep.
  - apply cached_frame_trained.
Qed.

(** C3, as the code has it.  Feeding a table or the same table without its
    duplicate (order-by, target, group) rows gives the same dataset on
    every training call, and on an inference call whenever no copy of a
    row carries a smaller index label than an earlier copy of it (as when
    the table comes sorted by its index): there the rows are sorted by
    label before duplicates are dropped, so the surviving copy is the one
    with the least label, not the first of the table.  On the inference
    call the sort is taken to be stable, or else the resampling not to
    depend on the order of rows of equal label. *)
Theorem duplicate_rows_do_not_change_dataset (w : World) (l l' : nat)
    (f f' : Frame) (train : bool) (groups : option (list Value)) :
  heap w !! l = Some f ->
  heap w !! l' = Some f' ->
  without_duplicates (keep_cols (self w)) f = Some f' ->
  cache_allocated w ->
  train = true
  \/ (copies_ordered (keep_cols (self w)) f = true
      /\ (keeps_ties \/ (sorts_by_label /\ order_free))) ->
  fst <$> _make_initial_ds (Some l) train groups w
  = fst <$> _make_initial_ds (Some l') train groups w.
Proof.
  intros Hl Hl' Hdup Halloc Hcase.
  destruct (without_duplicates_selects _ _ _ Hdup) as [sub Hsub].
  pose proof (select_without_duplicates _ _ _ _ Hsub Hdup) as Hsub'.
  rewrite !make_initial_ds_unfold.
  destruct train.
  - rewrite (gather_train _ _ _ _ _ Hl Hsub), (gather_train _ _ _ _ _ Hl' Hsub').
    simpl self.
    rewrite (build_ext _ (self w)), (build_ext (set_train_cache _ _) (self w))
      by reflexivity.
    unfold build.
    replace (drop_duplicates {| columns := columns sub;
                                rows := dedup_rows [] (rows sub) |})
      with (drop_duplicates sub).
    2:{ unfold drop_duplicates. simpl. f_equal.
        symmetry. now apply dedup_rows_idempotent. }
    destruct (gby_of (ts_analysis (self w))); simpl.
    + destruct (resample_sum _ _); reflexivity.
    + destruct (groupby_resample_sum _ _ _); reflexivity.
  - destruct Hcase as [|[Hord Hsort]]; [discriminate|].
    unfold copies_ordered in Hord. rewrite Hsub in Hord.
    rewrite (gather_inference _ _ _ _ _ Hl Hsub Halloc),
            (gather_inference _ _ _ _ _ Hl' Hsub' Halloc).
    destruct (prior w groups) as [before|]; simpl; [|reflexivity].
    unfold build.
    destruct Hsort as [Hties|[Hsorts Hfree]].
    + rewrite !Hties. rewrite <- (joined_dedup before sub Hord).
      destruct (gby_of (ts_analysis (self w))); simpl.
      * destruct (resample_sum _ _); reflexivity.
      * destruct (groupby_resample_sum _ _ _); reflexivity.
    + destruct (joined_dedup_sorted before sub Hsorts Hord)
        as (Hcols & Hsorted & Hsorted' & Hperm).
      destruct (Hfree (sample_freqs_default (ts_analysis (self w))) _ _
                      Hcols Hsorted Hsorted' Hperm) as [Hplain Hgrouped].
      destruct (gby_of (ts_analysis (self w))) as [|g rest]; simpl.
      * rewrite Hplain. clear Hplain Hgrouped.
        destruct (resample_sum _ _); reflexivity.
      * rewrite (Hgrouped g). clear Hplain Hgrouped.
        destruct (groupby_resample_sum _ _ _); reflexivity.
Qed.

(** The columns a returned dataset is keyed by, whatever the resampler. *)
Lemma built_item_id df train groups w d w' :
  _make_initial_ds df train groups w = Some (d, w') ->
  id_columns (ds_item_id d)
  = match gby_of (ts_analysis (self w)) with
    | [] => ["__default_group"]
    | gby => gby
    end.
Proof.
  rewrite make_initial_ds_unfold.
  destruct (gather df train groups w) as [[fr w1]|] eqn:Hg; [|discriminate].
  destruct (gather_keeps_settings _ _ _ _ _ _ Hg) as [Ht Ha].
  unfold build. rewrite Ha.
  destruct (gby_of (ts_analysis (self w))) as [|g rest].
  - destruct (resample_sum _ _); simpl; [|discriminate]. now intros [= <- <-].
  - destruct (groupby_resample_sum _ _ _); simpl; [|discriminate].
    now intros [= <- <-].
Qed.

(** C4, as the code has it.  A dataset the builder returns carries the
    configured target and frequency and is keyed by the configured
    group-by columns, or by the one synthesized column [__default_group]
    when none is configured; so with at most one group-by column it has
    exactly one group-identifier column, and the grouped and the ungrouped
    path give the same shape (target, one group id, frequency).  Without
    grouping the synthesized column is in the frame and constant. *)
Theorem dataset_keyed_by_one_group_column (w w' : World) (df : option nat)
    (train : bool) (groups : option (list Value)) (d : Dataset) :
  _make_initial_ds df train groups w = Some (d, w') ->
  ds_target d = target (self w)
  /\ ds_freq d = sample_freqs_default (ts_analysis (self w))
  /\ id_columns (ds_item_id d)
     = match gby_of (ts_analysis (self w)) with
       | [] => ["__default_group"]
       | gby => gby
       end
  /\ ((length (gby_of (ts_analysis (self w))) <= 1)%nat ->
      length (id_columns (ds_item_id d)) = 1%nat)
  /\ (gby_of (ts_analysis (self w)) = [] ->
      exists fr resampled,
        gather df train groups w = Some (fr, w')
        /\ resample_sum (sample_freqs_default (ts_analysis (self w)))
                        (drop_duplicates fr) = Some resampled
        /\ ds_frame d
           = assign_const "__default_group" (VStr "__default_group") resampled
        /\ "__default_group" ∈ columns (ds_frame d)
        /\ (well_formed resampled ->
            column "__default_group" (ds_frame d)
            = Some (replicate (length (rows resampled))
                              (VStr "__default_group")))).
Proof.
  rewrite make_initial_ds_unfold.
  destruct (gather df train groups w) as [[fr w1]|] eqn:Hg; [|discriminate].
  destruct (gather_keeps_settings _ _ _ _ _ _ Hg) as [Ht Ha].
  unfold build. rewrite Ht, Ha.
  destruct (gby_of (ts_analysis (self w))) as [|g rest] eqn:Hgby.
  - destruct (resample_sum _ _) as [resampled|] eqn:Hr; simpl; [|discriminate].
    intros [= <- <-]. simpl.
    split; [reflexivity|]. split; [reflexivity|]. split; [reflexivity|].
    split; [intros _; reflexivity|].
    intros _. exists fr, resampled.
    split; [reflexivity|]. split; [exact Hr|]. split; [reflexivity|].
    split; [apply assign_const_has_column|]. apply assign_const_column.
  - destruct (groupby_resample_sum _ _ _) as [resampled|]; simpl; [|discriminate].
    intros [= <- <-]. simpl.
    split; [reflexivity|]. split; [reflexivity|]. split; [reflexivity|].
    split; [|discriminate].
    intros Hlen. destruct rest; [reflexivity | simpl in Hlen; lia].
Qed.

End BuilderFacts.

(* ===================================================================== *)
(** * Properties of [fit] and [partial_fit]                               *)
(* ===================================================================== *)

Ltac mixer_fields :=
  cbn [stop_after stable prepared supports_proba target window horizon
       n_epochs ts_analysis grouped_by model train_cache patience
       hyperparam_search set_model set_train_cache set_prepared
       set_hyperparam_search heap self logged].

(** Case analysis on the innermost scrutinee of the goal. *)
Ltac innermost :=
  match goal with
  | |- context [match ?x with _ => _ end] =>
      lazymatch x with
      | context [match _ with _ => _ end] => fail
      | _ => destruct x
      end
  end.

Section FitFacts.
Context `{Backend}.

(** [fit] neither reads nor writes [hyperparam_search]. *)
Lemma fit_search_off train_data dev_data w :
  fit train_data dev_data (search_off w)
  = match fit train_data dev_data w with
    | Some (u, w') => Some (u, search_off w')
    | None => None
    end.
Proof.
  unfold fit, _make_initial_ds, data_frame_ref, gather, build, keep_cols,
    search_off.
  run. mixer_fields.
  repeat (innermost; run; mixer_fields; try reflexivity).
Qed.

(** C2. [partial_fit(a, b)] behaves as [fit(b, a)] followed by marking the
    mixer prepared: both raise or both return; when they return, the
    trained model, the cache (the reference and the frame behind it), the
    heap and the log are the same, and the mixer is prepared.  The one
    further difference is that [partial_fit] has set [hyperparam_search]
    to false. *)
Theorem partial_fit_is_swapped_fit (a b : EncodedDs) (w : World) :
  match fit b a w, partial_fit a b w with
  | Some (_, w1), Some (_, w2) =>
      model (self w2) = model (self w1)
      /\ train_cache (self w2) = train_cache (self w1)
      /\ cached_frame w2 = cached_frame w1
      /\ heap w2 = heap w1
      /\ logged w2 = logged w1
      /\ prepared (self w2) = true
      /\ self w2 = set_prepared true (set_hyperparam_search false (self w1))
  | None, None => True
  | _, _ => False
  end.
Proof.
  unfold partial_fit. run.
  change {| heap := heap w; self := set_hyperparam_search false (self w);
            logged := logged w |} with (search_off w).
  rewrite fit_search_off.
  destruct (fit b a w) as [[[] w1]|]; [|exact I].
  unfold search_off, cached_frame. mixer_fields. repeat split.
Qed.

End FitFacts.

(* ===================================================================== *)
(** * Properties of [__call__]                                            *)
(* ===================================================================== *)

Section CallFacts.
Context `{Backend}.

Lemma grown_refl w : grown w w.
Proof. unfold grown. split; [reflexivity|]. split; reflexivity. Qed.

Lemma grown_trans w1 w2 w3 : grown w1 w2 -> grown w2 w3 -> grown w1 w3.
Proof.
  intros (Hs & Hl & Hp) (Hs' & Hl' & Hp'). split; [congruence|].
  split; [congruence|]. now transitivity (heap w2).
Qed.

Lemma grown_alloc w (frames : list Frame) :
  grown w {| heap := heap w ++ frames; self := self w; logged := logged w |}.
Proof.
  unfold grown. split; [reflexivity|]. split; [reflexivity|].
  simpl. now apply prefix_app_r.
Qed.

(** An inference call of the builder only allocates. *)
Lemma gather_inference_grown df groups w fr w' :
  gather df false groups w = Some (fr, w') -> grown w w'.
Proof.
  unfold gather. run. intros Hg.
  repeat match type of Hg with
         | context [match ?x with _ => _ end] =>
             lazymatch x with
             | context [match _ with _ => _ end] => fail
             | _ => destruct x; run_in Hg
             end
         end;
    try discriminate; injection Hg as <- <-;
    try apply grown_refl;
    rewrite <- ?app_assoc; apply grown_alloc.
Qed.

Lemma history_grown ds idx w df w' :
  history ds idx w = Some (df, w') -> grown w w'.
Proof.
  unfold history. destruct (decide (idx <> 0%nat)); run.
  - destruct (frame_of (heap w) ds); run; [|discriminate].
    intros [= <- <-]. apply grown_alloc.
  - intros [= <- <-]. apply grown_refl.
Qed.

Lemma input_ds_grown ds groups idx w input w' :
  input_ds ds groups idx w = Some (input, w') -> grown w w'.
Proof.
  unfold input_ds. run.
  destruct (history ds idx w) as [[df w1]|] eqn:Hh; [|discriminate].
  rewrite make_initial_ds_unfold.
  destruct (gather df false groups w1) as [[fr w2]|] eqn:Hg; [|discriminate].
  destruct (build (self w2) fr); [|discriminate].
  intros [= <- <-].
  apply grown_trans with w1;
    [apply (history_grown _ _ _ _ _ Hh)
    | apply (gather_inference_grown _ _ _ _ _ Hg)].
Qed.

(** One iteration writes the forecast of its own dataset into its row. *)
Lemma call_row_spec ds groups conf ydf idx w ydf' w' :
  call_row ds groups conf ydf idx w = Some (ydf', w') ->
  exists input predictor forecast others r,
    input_ds ds groups idx w = Some (input, w')
    /\ model (self w') = Some predictor
    /\ predictor input = Some (forecast :: others)
    /\ ydf !! idx = Some r
    /\ ydf' = <[idx := forecast_row forecast conf r]> ydf.
Proof.
  unfold call_row. run.
  destruct (input_ds ds groups idx w) as [[input w1]|]; [|discriminate].
  run. destruct (model (self w1)) as [predictor|] eqn:Hm; [|discriminate].
  run. destruct (predictor input) as [[|forecast others]|] eqn:Hp;
    simpl; try discriminate.
  unfold at_set. destruct (ydf !! idx) as [r|] eqn:Hr; simpl; [|discriminate].
  pose proof (lookup_lt_Some _ _ _ Hr) as Hlt.
  rewrite list_lookup_insert_eq by exact Hlt. simpl.
  rewrite list_lookup_insert_eq by (now rewrite length_insert). simpl.
  rewrite !list_insert_insert_eq.
  intros [= <- <-].
  exists input, predictor, forecast, others, r.
  split; [reflexivity|]. split; [exact Hm|]. split; [exact Hp|].
  split; reflexivity.
Qed.

(** The rows a run of the loop has visited hold their forecasts, the
    others are as they were. *)
Lemma call_loop_spec ds groups conf idxs :
  forall ydf w ydf' w',
    call_loop ds groups conf ydf idxs w = Some (ydf', w') ->
    NoDup idxs ->
    grown w w'
    /\ length ydf' = length ydf
    /\ (forall idx, idx ∉ idxs -> ydf' !! idx = ydf !! idx)
    /\ (forall idx, idx ∈ idxs ->
          exists wi wi' input predictor forecast others r,
            grown w wi
            /\ input_ds ds groups idx wi = Some (input, wi')
            /\ model (self w) = Some predictor
            /\ predictor input = Some (forecast :: others)
            /\ ydf !! idx = Some r
            /\ ydf' !! idx = Some (forecast_row forecast conf r)).
Proof.
  induction idxs as [|i idxs IH]; intros ydf w ydf' w' Hrun Hnd.
  - simpl in Hrun. injection Hrun as <- <-.
    split; [apply grown_refl|]. split; [reflexivity|].
    split; [reflexivity|]. intros idx Hin. inversion Hin.
  - simpl in Hrun. run_in Hrun.
    destruct (call_row ds groups conf ydf i w) as [[ydf1 w1]|] eqn:Hrow;
      [|discriminate].
    apply NoDup_cons in Hnd as [Hi Hnd].
    destruct (IH _ _ _ _ Hrun Hnd) as (Hgrown & Hlen & Hout & Hin).
    destruct (call_row_spec _ _ _ _ _ _ _ _ Hrow)
      as (input & predictor & forecast & others & r
          & Hinput & Hmodel & Hpred & Hr & ->).
    pose proof (input_ds_grown _ _ _ _ _ _ Hinput) as Hg1.
    assert (Hself : self w1 = self w) by apply Hg1.
    split; [now apply grown_trans with w1|].
    split; [now rewrite Hlen, length_insert|].
    split.
    { intros idx Hidx. apply not_elem_of_cons in Hidx as [Hne Hidx].
      rewrite (Hout idx Hidx). now apply list_lookup_insert_ne. }
    intros idx Hidx. apply elem_of_cons in Hidx as [->|Hidx].
    + exists w, w1, input, predictor, forecast, others, r.
      split; [apply grown_refl|]. split; [exact Hinput|].
      split; [now rewrite <- Hself|]. split; [exact Hpred|].
      split; [exact Hr|].
      rewrite (Hout i Hi). apply list_lookup_insert_eq.
      now apply lookup_lt_Some with r.
    + destruct (Hin idx Hidx)
        as (wi & wi' & input' & predictor' & forecast' & others' & r'
            & Hgi & Hinput' & Hmodel' & Hpred' & Hr' & Hres).
      exists wi, wi', input', predictor', forecast', others', r'.
      split; [now apply grown_trans with w1|]. split; [exact Hinput'|].
      split; [now rewrite <- Hself|]. split; [exact Hpred'|].
      split; [|exact Hres].
      rewrite list_lookup_insert_ne in Hr'; [exact Hr'|].
      intros ->. contradiction.
Qed.

Lemma call_unfold ds args w ydf w' :
  __call__ ds args w = Some (ydf, w') ->
  exists f groups,
    frame_of (heap w) ds = Some f
    /\ groups_of (self w) f = Some groups
    /\ call_loop ds groups (conf_of args)
                 (map (blank_row (conf_of args)) (rows f))
                 (seq 0 (length (rows f))) w
       = Some (ydf, w').
Proof.
  unfold __call__, call_groups. run.
  match goal with
  | |- context [match ?x with Some a => Some (a, w) | None => None end] =>
      destruct x as [n|]
  end; [|discriminate].
  destruct (frame_of (heap w) ds) as [f|] eqn:Hf; [|discriminate].
  destruct (guard (n = length (rows f))) as [->|]; [|discriminate].
  rewrite Hf.
  destruct (groups_of (self w) f) as [groups|] eqn:Hg; [|discriminate].
  intros Hloop. exists f, groups.
  split; [reflexivity|]. split; [exact Hg | exact Hloop].
Qed.

(** C7. A call that returns has one output row per input row, in order.
    Row [idx] carries the label of input row [idx] and the confidence
    level of the call, and its three paths come from the first forecast
    the trained model gives for the dataset built for [idx]: the mean,
    the quantile at [1 - conf] and the quantile at [conf].  The level is
    the caller's fixed confidence, and 0.9 when none is supplied. *)
Theorem call_extracts_mean_and_quantiles (ds : EncodedDs)
    (args : PredictionArguments) (w w' : World) (ydf : list OutRow) :
  __call__ ds args w = Some (ydf, w') ->
  (fixed_confidence args = None -> conf_of args = (9 # 10)%Q)
  /\ (forall q, fixed_confidence args = Some q -> ~ (q == 0)%Q -> conf_of args = q)
  /\ exists f groups,
       frame_of (heap w) ds = Some f
       /\ groups_of (self w) f = Some groups
       /\ length ydf = length (rows f)
       /\ grown w w'
       /\ forall idx r,
            ydf !! idx = Some r ->
            confidence r = conf_of args
            /\ (exists row, rows f !! idx = Some row /\ index r = label row)
            /\ exists wi wi' input predictor forecast others,
                 grown w wi
                 /\ input_ds ds groups idx wi = Some (input, wi')
                 /\ model (self w) = Some predictor
                 /\ predictor input = Some (forecast :: others)
                 /\ prediction r = Path (mean forecast)
                 /\ lower r = Path (quantile forecast (1 - conf_of args)%Q)
                 /\ upper r = Path (quantile forecast (conf_of args)).
Proof.
  intros Hcall.
  split. { unfold conf_of. now intros ->. }
  split.
  { unfold conf_of, truthy. intros q -> Hq.
    destruct (Qeq_bool q 0) eqn:E; [|reflexivity].
    apply Qeq_bool_iff in E. contradiction. }
  destruct (call_unfold _ _ _ _ _ Hcall) as (f & groups & Hf & Hg & Hloop).
  destruct (call_loop_spec _ _ _ _ _ _ _ _ Hloop (NoDup_seq _ _))
    as (Hgrown & Hlen & _ & Hrows).
  rewrite length_map in Hlen.
  exists f, groups.
  split; [exact Hf|]. split; [exact Hg|]. split; [exact Hlen|].
  split; [exact Hgrown|].
  intros idx r Hr.
  assert (Hidx : idx ∈ seq 0 (length (rows f))).
  { apply elem_of_seq. apply lookup_lt_Some in Hr. lia. }
  destruct (Hrows idx Hidx)
    as (wi & wi' & input & predictor & forecast & others & r0
        & Hgi & Hinput & Hmodel & Hpred & Hr0 & Hres).
  rewrite Hr in Hres. injection Hres as ->.
  change (map (blank_row (conf_of args)) (rows f))
    with (blank_row (conf_of args) <$> rows f) in Hr0.
  rewrite list_lookup_fmap in Hr0.
  destruct (rows f !! idx) as [row|] eqn:Hrow; [|discriminate].
  injection Hr0 as <-. simpl.
  split; [reflexivity|].
  split; [exists row; split; reflexivity|].
  exists wi, wi', input, predictor, forecast, others.
  repeat (split; [assumption || reflexivity|]). reflexivity.
Qed.

(** C10. A fixed confidence that is falsy (zero, in whichever form) is
    ignored: the level is 0.9 and the call runs exactly as with no fixed
    confidence at all. *)
Theorem falsy_confidence_is_default (ds : EncodedDs)
    (args : PredictionArguments) (w : World) :
  truthy (fixed_confidence args) = false ->
  conf_of args = (9 # 10)%Q
  /\ __call__ ds args w = __call__ ds {| fixed_confidence := None |} w.
Proof.
  intros Hfalsy.
  assert (Hconf : conf_of args = (9 # 10)%Q).
  { unfold conf_of. now rewrite Hfalsy. }
  split; [exact Hconf|].
  unfold __call__. rewrite Hconf. reflexivity.
Qed.

Lemma gather_uncached w groups :
  cached_frame w = None -> gather None false groups w = None.
Proof.
  unfold cached_frame, gather. intros Hc. run.
  destruct (train_cache (self w)) as [c|] eqn:Hcache; simpl in Hc.
  - destruct (gby_of (ts_analysis (self w))); run; rewrite ?Hcache; run;
      now rewrite Hc.
  - destruct (gby_of (ts_analysis (self w))); run; rewrite ?Hcache; reflexivity.
Qed.

Lemma make_initial_ds_cached w groups :
  _make_initial_ds None false groups w
  = (d ← from_cache w groups; Some (d, w)).
Proof.
  rewrite make_initial_ds_unfold. unfold from_cache.
  destruct (cached_frame w) as [cache|] eqn:Hc.
  - rewrite (gather_cached _ _ _ Hc). simpl.
    destruct (requested (self w) groups cache); simpl; [|reflexivity].
    destruct (build (self w) f); reflexivity.
  - now rewrite (gather_uncached _ _ Hc).
Qed.




End CallFacts.

(* ===================================================================== *)
(** * The builder on concrete tables                                      *)
(* ===================================================================== *)

(** The executable backend sorts by label. *)
Lemma pandas_sorts day : @sorts_by_label (Pandas.backend day).
Proof.
  intros f. split; [reflexivity|].
  split; [apply sort_rows_by_label | apply sort_rows_perm].
Qed.

(** The theorem on [sales], grouped by [g]. *)
Lemma training_caches_deep_copy_sales :
  exists w' c,
    @gather Examples.hourly (Some 0%nat) true None (Examples.fresh (Some ["g"]))
    = Some (Examples.sales_kept, w')
    /\ train_cache (self w') = Some c
    /\ heap w' !! c = Some Examples.sales_kept
    /\ c <> 0%nat
    /\ (forall f', cached_frame (mutate 0 f' w') = Some Examples.sales_kept).
Proof.
  destruct (@training_caches_deep_copy Examples.hourly
              (Examples.fresh (Some ["g"])) 0
              Examples.sales Examples.sales_kept None)
    as (w' & c & Hrun & _ & _ & _ & Hc & Hheap & _ & Hne & _ & Hmut & _).
  - reflexivity.
  - reflexivity.
  - exists w', c. repeat split; assumption.
Defined.

(** The theorem on an inference call of a mixer grouped by [g]: [sales]
    repeats a row under a later label. *)
Lemma duplicate_rows_do_not_change_dataset_sales :
  fst <$> @_make_initial_ds Examples.hourly (Some 1%nat) false
            (Some [VStr "a"]) Examples.serving_sales
  = fst <$> @_make_initial_ds Examples.hourly (Some 2%nat) false
              (Some [VStr "a"]) Examples.serving_sales.
Proof.
  apply (@duplicate_rows_do_not_change_dataset Examples.hourly
           Examples.serving_sales 1 2 Examples.sales Examples.sales_once).
  - reflexivity.
  - reflexivity.
  - reflexivity.
  - unfold cache_allocated. simpl. lia.
  - right. split; [reflexivity|]. left. intros f. reflexivity.
Defined.

(** C3 fails as stated.  On an inference call the copy of a repeated row
    that survives is the one with the least index label; when that is not
    the first copy of the table, removing the duplicates from the table
    beforehand moves the observation to another period. *)
Lemma unsorted_duplicates_change_dataset :
  without_duplicates (keep_cols (self Examples.serving_readings)) Examples.readings
  = Some Examples.readings_once
  /\ (drop_duplicates ∘ fst) <$> @gather Examples.hourly (Some 1%nat) false None
                                    Examples.serving_readings
     = Some {| columns := ["__mdb_original_t"; "y"];
               rows := [ MkRow 0 [VNum 1; VNum 5];
                         MkRow 4 [VNum 0; VNum 2] ] |}
  /\ (drop_duplicates ∘ fst) <$> @gather Examples.hourly (Some 2%nat) false None
                                    Examples.serving_readings
     = Some {| columns := ["__mdb_original_t"; "y"];
               rows := [ MkRow 4 [VNum 0; VNum 2];
                         MkRow 10 [VNum 1; VNum 5] ] |}
  /\ fst <$> @_make_initial_ds Examples.hourly (Some 1%nat) false None
              Examples.serving_readings
     <> fst <$> @_make_initial_ds Examples.hourly (Some 2%nat) false None
                 Examples.serving_readings.
Proof.
  split; [reflexivity|]. split; [reflexivity|]. split; [reflexivity|].
  vm_compute. intros E. discriminate E.
Qed.

(** The theorem on inference calls of the mixer grouped by [g] that cached
    [sales_kept], asked about series [a]: without a table, and with the
    table [sales]. *)
Lemma inference_frame_from_cache_sales :
  @gather Examples.hourly None false (Some [VStr "a"]) Examples.serving_sales
  = Some (Examples.sales_a, Examples.serving_sales)
  /\ exists w',
       @gather Examples.hourly (Some 1%nat) false (Some [VStr "a"])
         Examples.serving_sales
       = Some (Examples.sales_a_and_sales, w')
       /\ cached_frame w' = Some Examples.sales_kept
       /\ Permutation (rows Examples.sales_a_and_sales)
                      (rows Examples.sales_a ++ rows Examples.sales_kept).
Proof.
  destruct (@inference_frame_from_cache Examples.hourly Examples.serving_sales
              (Some [VStr "a"]) Examples.sales_kept (pandas_sorts 24) eq_refl)
    as (Hnone & _ & _ & Hsome).
  split; [exact Hnone|].
  destruct (Hsome 1%nat Examples.sales Examples.sales_kept Examples.sales_a
              eq_refl eq_refl eq_refl)
    as (df & w' & Hrun & Hdf & _ & Hcache & _ & _ & _ & _ & _ & _ & Hrows).
  exists w'. split; [rewrite Hrun, Hdf; reflexivity|].
  split; [exact Hcache|].
  destruct Hrows as [_ Hperm].
  - reflexivity.
  - simpl. repeat constructor; rewrite ?list_elem_of_In; simpl; intuition discriminate.
  - repeat constructor.
  - rewrite Hdf in Hperm. exact Hperm.
Defined.

(** The theorem on the training call of an ungrouped mixer on [sales]. *)
Lemma dataset_keyed_by_one_group_column_sales :
  ds_target Examples.sales_dataset = "y"
  /\ ds_freq Examples.sales_dataset = 2
  /\ id_columns (ds_item_id Examples.sales_dataset) = ["__default_group"].
Proof.
  destruct (@dataset_keyed_by_one_group_column Examples.hourly
              (Examples.fresh None)
              (trained_world (Examples.fresh None) Examples.sales_plain)
              (Some 0%nat) true None Examples.sales_dataset)
    as (Ht & Hf & Hid & _).
  - vm_compute. reflexivity.
  - split; [exact Ht|]. split; [exact Hf | exact Hid].
Defined.

(** C4 fails as stated.  With two group-by columns configured, the region
    [g] and the department [h], the builder groups and resamples by the
    first, yet hands the whole list to the dataset as its item id: the
    dataset has two group-identifier columns.  The executable backend
    returns that dataset on [stores], and whatever the resampler makes of
    the table, a dataset the builder returns there is keyed by both. *)
Lemma two_group_by_columns_give_two_id_columns :
  fst <$> @_make_initial_ds Examples.hourly (Some 0%nat) true None
            Examples.fresh_stores
  = Some Examples.stores_dataset
  /\ id_columns (ds_item_id Examples.stores_dataset) = ["g"; "h"]
  /\ length (id_columns (ds_item_id Examples.stores_dataset)) <> 1%nat
  /\ forall (backend : Backend) d w',
       @_make_initial_ds backend (Some 0%nat) true None Examples.fresh_stores
       = Some (d, w') ->
       id_columns (ds_item_id d) = ["g"; "h"].
Proof.
  split; [vm_compute; reflexivity|]. split; [reflexivity|].
  split; [simpl; lia|].
  intros backend d w' Hrun.
  now rewrite (@built_item_id backend _ _ _ _ _ _ Hrun).
Qed.

(* ===================================================================== *)
(** * Calls on concrete tables                                            *)
(* ===================================================================== *)

(** [partial_fit] returns on [sales], with the mixer prepared and the
    search flag off. *)
Lemma partial_fit_sales :
  (fun r => (prepared (self (snd r)), hyperparam_search (self (snd r))))
    <$> @partial_fit Examples.hourly (Encoded 0) (Encoded 0) (Examples.fresh None)
  = Some (true, Some false).
Proof. vm_compute. reflexivity. Qed.

(** The theorem on a call about [ask_a] with no fixed confidence. *)
Lemma call_extracts_mean_and_quantiles_ask_a :
  conf_of {| fixed_confidence := None |} = (9 # 10)%Q
  /\ forall idx r,
       Examples.answer_a !! idx = Some r -> confidence r = (9 # 10)%Q.
Proof.
  destruct (@call_extracts_mean_and_quantiles Examples.hourly (Encoded 1)
              {| fixed_confidence := None |}
              Examples.serving_model Examples.serving_model Examples.answer_a)
    as (Hdefault & _ & f & groups & _ & _ & _ & _ & Hrows).
  - vm_compute. reflexivity.
  - split; [now apply Hdefault|].
    intros idx r Hr. now destruct (Hrows idx r Hr) as [Hconf _].
Defined.

(** The theorem at a fixed confidence of zero. *)
Lemma falsy_confidence_is_default_zero :
  conf_of {| fixed_confidence := Some 0%Q |} = (9 # 10)%Q
  /\ @__call__ Examples.hourly (Encoded 1) {| fixed_confidence := Some 0%Q |}
       Examples.serving_model
     = @__call__ Examples.hourly (Encoded 1) {| fixed_confidence := None |}
         Examples.serving_model.
Proof.
  apply (@falsy_confidence_is_default Examples.hourly (Encoded 1)
           {| fixed_confidence := Some 0%Q |} Examples.serving_model).
  reflexivity.
Defined.


(* ===================================================================== *)
(** * More on the early-stop policy                                       *)
(* ===================================================================== *)

Section EarlyStopRuns.
Context {loss : Type} (gt : loss -> loss -> bool).
Import EarlyStop.

Lemma signals_snoc (s : t) losses x :
  signals gt s (losses ++ [x])
  = signals gt s losses ++ [snd (on_validation_epoch_end gt (epochs gt s losses) x)].
Proof.
  revert s. induction losses as [|y l IH]; intros s; simpl; [reflexivity|].
  f_equal. apply IH.
Qed.

Lemma signals_length (s : t) losses : length (signals gt s losses) = length losses.
Proof.
  revert s. induction losses as [|y l IH]; intros s; simpl; [reflexivity|].
  now rewrite IH.
Qed.

Lemma epochs_patience p losses :
  patience (epochs gt (@__init__ loss p) losses) = Z.max 1 p.
Proof.
  induction losses as [|y l IH] using rev_ind; [reflexivity|].
  now rewrite epochs_snoc, patience_step.
Qed.

(** The flag of an epoch, read off the run of worsening epochs it ends. *)
Lemma flag_of_run p losses x :
  snd (on_validation_epoch_end gt (epochs gt (__init__ p) losses) x)
  = bool_decide (Z.of_nat (worsening_run gt (x :: rev losses)) < Z.max 1 p).
Proof.
  rewrite flag_step, patience_step, epochs_patience.
  rewrite <- epochs_snoc, epochs_counter, rev_app_distr. simpl rev at 1.
  simpl app.
  set (n := Z.of_nat (worsening_run gt (x :: rev losses))).
  destruct (Z.geb_spec n (Z.max 1 p)); cbn [negb]; symmetry;
    [apply bool_decide_eq_false | apply bool_decide_eq_true]; lia.
Qed.

Lemma worsening_run_bound (newest_first : list loss) :
  (worsening_run gt newest_first <= length newest_first - 1)%nat.
Proof.
  induction newest_first as [|x [|y r] IH]; simpl in *; try lia.
  destruct (gt x y); lia.
Qed.

(** X1. From its initial state the callback keeps its counter between
    zero and the number of epochs seen minus one: a counter of [k] takes
    [k + 1] recorded losses. *)
Theorem early_stop_counter_bounds (p : Z) (losses : list loss) :
  0 <= counter (epochs gt (__init__ p) losses)
  /\ counter (epochs gt (__init__ p) losses)
     <= Z.max 0 (Z.of_nat (length losses) - 1).
Proof.
  rewrite epochs_counter.
  pose proof (worsening_run_bound (rev losses)) as Hb.
  rewrite length_rev in Hb. lia.
Qed.

(** X2. Training is never stopped within the first [max 1 p] validation
    epochs: every flag returned there says continue. *)
Theorem early_stop_never_within_patience (p : Z) (losses : list loss) :
  Z.of_nat (length losses) <= Z.max 1 p ->
  Forall (fun flag => flag = true) (signals gt (__init__ p) losses).
Proof.
  induction losses as [|x l IH] using rev_ind; intros Hlen; [constructor|].
  rewrite length_app in Hlen. simpl in Hlen.
  rewrite signals_snoc. apply Forall_app. split; [apply IH; lia|].
  constructor; [|constructor].
  rewrite flag_of_run. apply bool_decide_eq_true.
  pose proof (worsening_run_bound (x :: rev l)) as Hb.
  simpl length in Hb. rewrite length_rev in Hb. lia.
Qed.

Lemma stepwise_snoc (R : loss -> loss -> Prop) l y x :
  stepwise R (l ++ [y; x]) <-> stepwise R (l ++ [y]) /\ R y x.
Proof.
  induction l as [|a l IH]; simpl.
  - tauto.
  - destruct l as [|b l]; simpl in *; tauto.
Qed.

Lemma stepwise_prefix (R : loss -> loss -> Prop) l x :
  stepwise R (l ++ [x]) -> stepwise R l.
Proof.
  destruct l as [|y l] using rev_ind; [intros _; exact I|].
  rewrite <- app_assoc. simpl. intros Hs. now apply stepwise_snoc in Hs.
Qed.

(** X3. While no loss is worse than the one before it, the callback
    never stops the training, however long it runs. *)
Theorem early_stop_never_on_steady_losses (p : Z) (losses : list loss) :
  stepwise (fun before x => gt x before = false) losses ->
  Forall (fun flag => flag = true) (signals gt (__init__ p) losses).
Proof.
  induction losses as [|x l IH] using rev_ind; intros Hs; [constructor|].
  rewrite signals_snoc. apply Forall_app.
  split; [apply IH; now apply stepwise_prefix with x|].
  constructor; [|constructor].
  rewrite flag_of_run. apply bool_decide_eq_true.
  destruct l as [|y l'] using rev_ind; simpl; [lia|].
  rewrite <- app_assoc in Hs. simpl in Hs.
  apply stepwise_snoc in Hs as [_ Hxy].
  rewrite rev_app_distr. simpl. rewrite Hxy. simpl. lia.
Qed.

Lemma worsening_run_full losses :
  stepwise (fun before x => gt x before = true) losses ->
  worsening_run gt (rev losses) = (length losses - 1)%nat.
Proof.
  induction losses as [|x l IH] using rev_ind; intros Hs; [reflexivity|].
  rewrite rev_app_distr, length_app. simpl.
  destruct l as [|y l'] using rev_ind; [reflexivity|].
  pose proof (stepwise_prefix _ _ _ Hs) as Hl.
  rewrite <- app_assoc in Hs. simpl in Hs.
  apply stepwise_snoc in Hs as [_ Hxy].
  specialize (IH Hl). rewrite rev_app_distr in *. simpl in *.
  rewrite Hxy, IH, length_app. simpl. lia.
Qed.

(** X4. While every loss is worse than the one before it, the callback
    says continue for the first [max 1 p] epochs and stop at every epoch
    after them. *)
Theorem early_stop_on_worsening_losses (p : Z) (losses : list loss) :
  stepwise (fun before x => gt x before = true) losses ->
  forall k flag,
    signals gt (__init__ p) losses !! k = Some flag ->
    flag = bool_decide (Z.of_nat k < Z.max 1 p).
Proof.
  induction losses as [|x l IH] using rev_ind; intros Hs k flag Hk;
    [discriminate|].
  rewrite signals_snoc in Hk.
  destruct (decide (k < length l)%nat) as [Hlt|Hge].
  - rewrite lookup_app_l in Hk by (now rewrite signals_length).
    apply IH; [now apply stepwise_prefix with x | exact Hk].
  - pose proof (lookup_lt_Some _ _ _ Hk) as Hbound.
    rewrite length_app, signals_length in Hbound. simpl in Hbound.
    assert (k = length l) as -> by lia.
    rewrite lookup_app_r in Hk by (rewrite signals_length; lia).
    rewrite signals_length, Nat.sub_diag in Hk. simpl in Hk.
    injection Hk as <-. rewrite flag_of_run.
    replace (x :: rev l) with (rev (l ++ [x])) by (now rewrite rev_app_distr).
    rewrite (worsening_run_full _ Hs), length_app. simpl.
    apply bool_decide_ext. lia.
Qed.

(** X5. An epoch that is not worse than the one before it always lets
    the training go on and clears the counter, whatever the losses before
    were, even when the callback had already said stop. *)
Theorem early_stop_resumes_on_improvement (p : Z) (losses : list loss)
    (before x : loss) :
  gt x before = false ->
  snd (on_validation_epoch_end gt
         (epochs gt (__init__ p) (losses ++ [before])) x) = true
  /\ counter (fst (on_validation_epoch_end gt
                     (epochs gt (__init__ p) (losses ++ [before])) x)) = 0.
Proof.
  intros Hxy. split.
  - rewrite flag_of_run, rev_app_distr. simpl. rewrite Hxy.
    apply bool_decide_eq_true. simpl. lia.
  - rewrite (counter_step_next gt _ x losses before)
      by (now rewrite epochs_history).
    now rewrite Hxy.
Qed.

End EarlyStopRuns.

(** X2 on three worsening epochs at a patience of three. *)
Lemma early_stop_never_within_patience_three :
  Forall (fun flag => flag = true)
         (signals Z.gtb (EarlyStop.__init__ 3) [5; 6; 7]).
Proof.
  apply (early_stop_never_within_patience Z.gtb 3 [5; 6; 7]). simpl. lia.
Defined.

(** X3 on losses that fall and then stay level. *)
Lemma early_stop_never_on_steady_losses_level :
  Forall (fun flag => flag = true)
         (signals Z.gtb (EarlyStop.__init__ 1) [9; 7; 7; 4; 4; 4]).
Proof.
  apply (early_stop_never_on_steady_losses Z.gtb 1 [9; 7; 7; 4; 4; 4]).
  simpl. repeat split; reflexivity.
Defined.

(** X4 on five rising losses at a patience of two: the third epoch onwards
    says stop. *)
Lemma early_stop_on_worsening_losses_rising :
  signals Z.gtb (EarlyStop.__init__ 2) [1; 2; 3; 4; 5] !! 2%nat = Some false
  /\ false = bool_decide (Z.of_nat 2 < 2).
Proof.
  split; [reflexivity|].
  apply (early_stop_on_worsening_losses Z.gtb 2 [1; 2; 3; 4; 5]).
  - simpl. repeat split; reflexivity.
  - reflexivity.
Defined.

(** X5 after three rising losses at a patience of one. *)
Lemma early_stop_resumes_on_improvement_after_stop :
  snd (EarlyStop.on_validation_epoch_end Z.gtb
         (EarlyStop.epochs Z.gtb (EarlyStop.__init__ 1) ([1; 2] ++ [3])) 3) = true
  /\ EarlyStop.counter
       (fst (EarlyStop.on_validation_epoch_end Z.gtb
               (EarlyStop.epochs Z.gtb (EarlyStop.__init__ 1) ([1; 2] ++ [3])) 3))
     = 0.
Proof.
  apply (early_stop_resumes_on_improvement Z.gtb 1 [1; 2] 3 3). reflexivity.
Defined.

(* ===================================================================== *)
(** * Edge cases of the dataset builder                                   *)
(* ===================================================================== *)

Section BuilderEdges.
Context `{Backend}.

Lemma col_index_missing c cols : c ∉ cols -> col_index c cols = None.
Proof.
  induction cols as [|c' cols IH]; intros Hnot; simpl; [reflexivity|].
  apply not_elem_of_cons in Hnot as [Hne Hnot].
  rewrite decide_False by exact Hne. now rewrite IH.
Qed.

Lemma select_columns_missing keep f c :
  c ∈ keep -> c ∉ columns f -> select_columns keep f = None.
Proof.
  intros Hin Hnot. unfold select_columns.
  rewrite (mapM_None_2 (fun c => col_index c (columns f)) keep); [reflexivity|].
  apply Exists_exists. exists c. split; [exact Hin|].
  now apply col_index_missing.
Qed.

Lemma gather_without_table w groups : gather None true groups w = None.
Proof. reflexivity. Qed.

(** X6. The builder raises when it is given nothing to work on: a
    training call without a table, and an inference call without a table
    on a mixer that has cached nothing yet. *)
Theorem builder_raises_without_table_or_cache (w : World) (train : bool)
    (groups : option (list Value)) :
  train = true \/ train_cache (self w) = None ->
  _make_initial_ds None train groups w = None.
Proof.
  intros Hcase. rewrite make_initial_ds_unfold.
  destruct train.
  - now rewrite gather_without_table.
  - destruct Hcase as [|Hcache]; [discriminate|].
    rewrite gather_uncached; [reflexivity|].
    unfold cached_frame. now rewrite Hcache.
Qed.

(** X7. The builder raises on any table that lacks one of the columns it
    keeps (the original order-by column, the target, a group-by column):
    extra columns are dropped, missing ones are an error, on training and
    on inference alike. *)
Theorem builder_raises_on_missing_column (w : World) (l : nat) (f : Frame)
    (c : string) (train : bool) (groups : option (list Value)) :
  heap w !! l = Some f ->
  c ∈ keep_cols (self w) ->
  c ∉ columns f ->
  _make_initial_ds (Some l) train groups w = None.
Proof.
  intros Hl Hin Hnot. rewrite make_initial_ds_unfold.
  unfold gather. run. rewrite Hl. run.
  rewrite (select_columns_missing _ _ _ Hin Hnot).
  destruct train; reflexivity.
Qed.

Lemma isin_rows_without_groups g f : isin_rows g None f = None.
Proof. unfold isin_rows. destruct (col_index g (columns f)); reflexivity. Qed.

(** X8. With grouping configured, an inference call that is not told
    which groups to serve raises, with or without a table. *)
Theorem grouped_inference_needs_groups (w : World) (df : option nat) :
  gby_of (ts_analysis (self w)) <> [] ->
  _make_initial_ds df false None w = None.
Proof.
  intros Hgby. rewrite make_initial_ds_unfold.
  destruct (gby_of (ts_analysis (self w))) as [|g rest] eqn:Hg; [contradiction|].
  unfold gather. cbv beta iota zeta delta [mbind M_bind get_self].
  cbn [self]. rewrite Hg.
  destruct df as [l|]; run.
  - destruct (heap w !! l) as [f|]; run; [|reflexivity].
    destruct (select_columns _ f) as [sub|]; run; [|reflexivity].
    destruct (train_cache (self w)) as [c|]; run; [|reflexivity].
    destruct (_ !! c) as [cache|]; run; [|reflexivity].
    now rewrite isin_rows_without_groups.
  - destruct (train_cache (self w)) as [c|]; run; [|reflexivity].
    destruct (_ !! c) as [cache|]; run; [|reflexivity].
    now rewrite isin_rows_without_groups.
Qed.

(** X9. An ungrouped mixer that has cached nothing still serves an
    inference call that brings a table: the missing cache is skipped and
    the dataset is built from the selected columns of that table alone,
    sorted by label. *)
Theorem unfitted_inference_uses_table_alone (w : World) (l : nat)
    (f sub : Frame) (groups : option (list Value)) :
  gby_of (ts_analysis (self w)) = [] ->
  train_cache (self w) = None ->
  heap w !! l = Some f ->
  select_columns (keep_cols (self w)) f = Some sub ->
  _make_initial_ds (Some l) false groups w
  = (d ← build (self w) (sort_index sub);
     Some (d, {| heap := heap w ++ [sub; sub];
                 self := self w; logged := logged w |})).
Proof.
  intros Hgby Hcache Hl Hsub. rewrite make_initial_ds_unfold.
  rewrite (gather_inference _ _ _ _ _ Hl Hsub)
    by (unfold cache_allocated; now rewrite Hcache).
  unfold prior. rewrite Hgby, Hcache. simpl.
  destruct (build (self w) (sort_index sub)); reflexivity.
Qed.

(** X10. An inference call of the builder leaves the mixer as it was:
    model, cache reference and cached table are the same afterwards, every
    frame that existed is unchanged, and without a table nothing at all
    is allocated. *)
Theorem inference_leaves_mixer_untouched (w w' : World) (df : option nat)
    (groups : option (list Value)) (d : Dataset) :
  _make_initial_ds df false groups w = Some (d, w') ->
  grown w w'
  /\ (df = None -> w' = w)
  /\ (forall j g, heap w !! j = Some g -> heap w' !! j = Some g)
  /\ model (self w') = model (self w)
  /\ train_cache (self w') = train_cache (self w)
  /\ (forall cache, cached_frame w = Some cache -> cached_frame w' = Some cache).
Proof.
  intros Hrun.
  assert (Hgrown : grown w w').
  { rewrite make_initial_ds_unfold in Hrun.
    destruct (gather df false groups w) as [[fr w1]|] eqn:Hg; [|discriminate].
    destruct (build (self w1) fr); [|discriminate].
    injection Hrun as <- <-. exact (gather_inference_grown _ _ _ _ _ Hg). }
  destruct Hgrown as (Hself & Hlog & Hheap).
  assert (Hkeep : forall j g, heap w !! j = Some g -> heap w' !! j = Some g).
  { intros j g Hj. destruct Hheap as [k ->]. rewrite lookup_app_l; [exact Hj|].
    now apply lookup_lt_Some with g. }
  split; [repeat split; assumption|].
  split.
  { intros ->. rewrite make_initial_ds_cached in Hrun.
    destruct (from_cache w groups); simpl in Hrun; [|discriminate].
    now injection Hrun as _ <-. }
  split; [exact Hkeep|].
  split; [now rewrite Hself|]. split; [now rewrite Hself|].
  intros cache. unfold cached_frame. rewrite Hself.
  destruct (train_cache (self w)) as [c|]; simpl; [apply Hkeep | discriminate].
Qed.

(** X11. The [groups] argument is read only by inference calls of a
    grouped mixer: a training call, and any call of an ungrouped mixer,
    gives the same result whatever is passed for it. *)
Theorem groups_only_matter_to_grouped_inference (w : World) (df : option nat)
    (train : bool) (groups groups' : option (list Value)) :
  train = true \/ gby_of (ts_analysis (self w)) = [] ->
  _make_initial_ds df train groups w = _make_initial_ds df train groups' w.
Proof.
  intros Hcase. rewrite !make_initial_ds_unfold.
  assert (Hg : gather df train groups w = gather df train groups' w);
    [|now rewrite Hg].
  unfold gather. cbv beta iota zeta delta [mbind M_bind get_self]. cbn [self].
  destruct Hcase as [->|Hgby].
  - destruct df; reflexivity.
  - rewrite Hgby. destruct df, train; reflexivity.
Qed.

Lemma isin_rows_all g f vs gs :
  column g f = Some vs -> vs ⊆ gs -> isin_rows g (Some gs) f = Some f.
Proof.
  unfold column, isin_rows.
  destruct (col_index g (columns f)) as [i|]; simpl; [|discriminate].
  intros [= <-] Hsub. destruct f as [cols rs]. simpl in *. f_equal. f_equal.
  apply forallb_filter_id. apply forallb_forall. intros r Hr.
  apply bool_decide_eq_true. apply Hsub.
  apply list_elem_of_In. now apply in_map.
Qed.

(** X12. What a training call caches reproduces its dataset: an
    inference call without a table, made right after and asked for every
    group the cached table holds, returns the very dataset the training
    call returned, and changes nothing. *)
Theorem cache_reproduces_training_dataset (w w' : World) (l : nat)
    (groups groups' : option (list Value)) (d : Dataset) :
  _make_initial_ds (Some l) true groups w = Some (d, w') ->
  covers_cache w' groups' ->
  _make_initial_ds None false groups' w' = Some (d, w').
Proof.
  intros Hrun Hcov. rewrite make_initial_ds_unfold in Hrun.
  destruct (heap w !! l) as [f|] eqn:Hl.
  2:{ unfold gather in Hrun. run_in Hrun. rewrite Hl in Hrun. discriminate. }
  destruct (select_columns (keep_cols (self w)) f) as [sub|] eqn:Hsub.
  2:{ unfold gather in Hrun. run_in Hrun. rewrite Hl in Hrun. run_in Hrun.
      rewrite Hsub in Hrun. discriminate. }
  rewrite (gather_train _ _ _ _ _ Hl Hsub) in Hrun.
  destruct (build (self (trained_world w sub)) sub) as [d0|] eqn:Hd;
    [|discriminate].
  injection Hrun as <- <-.
  rewrite make_initial_ds_cached. unfold from_cache.
  rewrite cached_frame_trained. cbn [mbind option_bind].
  assert (Hreq : requested (self (trained_world w sub)) groups' sub = Some sub).
  { unfold requested. unfold covers_cache in Hcov.
    destruct (gby_of (ts_analysis (self (trained_world w sub)))) as [|g rest];
      [reflexivity|].
    destruct Hcov as (cache & vs & gs & Hc & Hcol & -> & Hsubset).
    rewrite cached_frame_trained in Hc. injection Hc as <-.
    now apply isin_rows_all with vs. }
  rewrite Hreq. cbn [mbind option_bind]. rewrite Hd. reflexivity.
Qed.

End BuilderEdges.

(** X6 on a mixer that has never been fitted. *)
Lemma builder_raises_without_table_or_cache_fresh :
  @_make_initial_ds Examples.hourly None false None (Examples.fresh None) = None.
Proof.
  apply (@builder_raises_without_table_or_cache Examples.hourly).
  right. reflexivity.
Defined.

(** X7 on a table without the target column [y]. *)
Lemma builder_raises_on_missing_column_target :
  @_make_initial_ds Examples.hourly (Some 0%nat) true None
    Examples.fresh_untargeted = None.
Proof.
  apply (@builder_raises_on_missing_column Examples.hourly
           Examples.fresh_untargeted 0 Examples.untargeted "y").
  - reflexivity.
  - right. left.
  - intros Hin. apply list_elem_of_In in Hin. simpl in Hin.
    destruct Hin as [E|[E|[]]]; discriminate E.
Defined.

(** X8 on the mixer grouped by [g] that cached [sales_kept]. *)
Lemma grouped_inference_needs_groups_sales :
  @_make_initial_ds Examples.hourly (Some 1%nat) false None
    Examples.serving_sales = None.
Proof.
  apply (@grouped_inference_needs_groups Examples.hourly). discriminate.
Defined.

(** X9 on a fresh ungrouped mixer that is shown [sales]. *)
Lemma unfitted_inference_uses_table_alone_sales :
  fst <$> @_make_initial_ds Examples.hourly (Some 0%nat) false None
            (Examples.fresh None)
  = Some Examples.sales_dataset.
Proof.
  rewrite (@unfitted_inference_uses_table_alone Examples.hourly
             (Examples.fresh None) 0 Examples.sales Examples.sales_plain None
             eq_refl eq_refl eq_refl eq_refl).
  vm_compute. reflexivity.
Defined.

(** X10 on an inference call about [sales] of the mixer grouped by [g]. *)
Lemma inference_leaves_mixer_untouched_sales :
  grown Examples.serving_sales Examples.served_sales
  /\ cached_frame Examples.served_sales = Some Examples.sales_kept.
Proof.
  destruct (@inference_leaves_mixer_untouched Examples.hourly
              Examples.serving_sales Examples.served_sales (Some 1%nat)
              (Some [VStr "a"]) Examples.sales_grouped_dataset)
    as (Hgrown & _ & _ & _ & _ & Hcache).
  - vm_compute. reflexivity.
  - split; [exact Hgrown|]. now apply Hcache.
Defined.

(** X11 on a training call of the mixer grouped by [g]. *)
Lemma groups_only_matter_to_grouped_inference_training :
  @_make_initial_ds Examples.hourly (Some 0%nat) true (Some [VStr "a"])
    (Examples.fresh (Some ["g"]))
  = @_make_initial_ds Examples.hourly (Some 0%nat) true None
      (Examples.fresh (Some ["g"])).
Proof.
  apply (@groups_only_matter_to_grouped_inference Examples.hourly).
  left. reflexivity.
Defined.

(** X12 on [sales], grouped by [g], asked for both of its series. *)
Lemma cache_reproduces_training_dataset_sales :
  @_make_initial_ds Examples.hourly None false (Some [VStr "a"; VStr "b"])
    (trained_world (Examples.fresh (Some ["g"])) Examples.sales_kept)
  = Some (Examples.sales_grouped_dataset,
          trained_world (Examples.fresh (Some ["g"])) Examples.sales_kept).
Proof.
  apply (@cache_reproduces_training_dataset Examples.hourly
           (Examples.fresh (Some ["g"])) _ 0 None).
  - vm_compute. reflexivity.
  - exists Examples.sales_kept, [VStr "a"; VStr "b"; VStr "a"; VStr "a"],
      [VStr "a"; VStr "b"].
    split; [reflexivity|]. split; [reflexivity|]. split; [reflexivity|].
    intros v Hv. apply list_elem_of_In in Hv. apply list_elem_of_In.
    simpl in *. tauto.
Defined.

(* ===================================================================== *)
(** * More on [fit] and [partial_fit]                                     *)
(* ===================================================================== *)

Section FitEffects.
Context `{Backend}.

Lemma frame_of_pair h a b :
  frame_of h (ConcatedEncodedDs [a; b])
  = (fa ← frame_of h a; fb ← frame_of h b; Some (concat fa fb)).
Proof.
  simpl. destruct (frame_of h a) as [fa|]; simpl; [|reflexivity].
  destruct (frame_of h b) as [fb|]; reflexivity.
Qed.

(** [fit], step by step, as one equation. *)
Lemma fit_equation train_data dev_data w :
  fit train_data dev_data w
  = (fa ← frame_of (heap w) train_data;
     fb ← frame_of (heap w) dev_data;
     '(cat, sub, predictor) ← fit_outcome (self w) fa fb;
     Some (tt, fitted_world w cat sub predictor)).
Proof.
  unfold fit, data_frame_ref. run.
  rewrite frame_of_pair.
  destruct (frame_of (heap w) train_data) as [fa|]; simpl; [|reflexivity].
  destruct (frame_of (heap w) dev_data) as [fb|]; simpl; [|reflexivity].
  rewrite make_initial_ds_unfold.
  unfold fit_outcome. cbv zeta.
  destruct (select_columns (keep_cols (self w)) (concat fa fb)) as [sub|] eqn:Hsub;
    simpl.
  2:{ unfold gather. run. rewrite lookup_app_r by lia.
      rewrite Nat.sub_diag. simpl. run. now rewrite Hsub. }
  erewrite gather_train; [|simpl; rewrite lookup_app_r by lia;
                           rewrite Nat.sub_diag; reflexivity
                          |simpl; exact Hsub].
  rewrite (build_ext _ (self w)) by reflexivity.
  destruct (build (self w) sub) as [d|]; simpl; [|reflexivity].
  destruct (estimator_train _ _ _ _ d) as [predictor|]; simpl; [|reflexivity].
  unfold fitted_world, trained_world. simpl.
  rewrite length_app, <- !app_assoc. simpl.
  repeat f_equal. lia.
Qed.

Lemma cached_frame_fitted w cat sub predictor :
  cached_frame (fitted_world w cat sub predictor) = Some sub.
Proof.
  unfold cached_frame, fitted_world. simpl.
  rewrite lookup_app_r by lia.
  replace (S (S (length (heap w))) - length (heap w))%nat with 2%nat by lia.
  reflexivity.
Qed.

Lemma fit_outcome_settings (s1 s2 : GluonTSMixer) fa fb :
  same_settings s1 s2 -> fit_outcome s1 fa fb = fit_outcome s2 fa fb.
Proof.
  intros (Ht & Hh & Hn & Ha & Hp). unfold fit_outcome, keep_cols.
  rewrite Ht, Hh, Hn, Ha, Hp. cbv zeta.
  destruct (select_columns _ _) as [sub|]; simpl; [|reflexivity].
  now rewrite (build_ext s1 s2).
Qed.

(** X13. A [fit] that returns has cached the order-by, target and
    group-by columns of the training table followed by the validation
    table (the rows of the first argument first), holds the predictor the
    estimator trained on the dataset built from that table, has logged two
    lines, and has left the prepared flag, the search flag and every
    existing frame as they were. *)
Theorem fit_caches_train_then_dev (train_data dev_data : EncodedDs)
    (w w' : World) :
  fit train_data dev_data w = Some (tt, w') ->
  exists fa fb sub predictor,
    frame_of (heap w) train_data = Some fa
    /\ frame_of (heap w) dev_data = Some fb
    /\ fit_outcome (self w) fa fb = Some (concat fa fb, sub, predictor)
    /\ map label (rows sub) = map label (rows fa) ++ map label (rows fb)
    /\ cached_frame w' = Some sub
    /\ model (self w') = Some predictor
    /\ prepared (self w') = prepared (self w)
    /\ hyperparam_search (self w') = hyperparam_search (self w)
    /\ logged w' = logged w ++ ["Started fitting GluonTS forecasting model";
                               "Successfully trained GluonTS forecasting model."]
    /\ (forall j g, heap w !! j = Some g -> heap w' !! j = Some g).
Proof.
  rewrite fit_equation.
  destruct (frame_of (heap w) train_data) as [fa|]; simpl; [|discriminate].
  destruct (frame_of (heap w) dev_data) as [fb|]; simpl; [|discriminate].
  destruct (fit_outcome (self w) fa fb) as [[[cat sub] predictor]|] eqn:Hout;
    simpl; [|discriminate].
  intros [= <-].
  assert (Hcat : cat = concat fa fb /\ select_columns (keep_cols (self w)) cat = Some sub).
  { unfold fit_outcome in Hout. cbv zeta in Hout.
    destruct (select_columns _ _) as [sub0|] eqn:Hs; simpl in Hout; [|discriminate].
    destruct (build (self w) sub0) as [d|]; simpl in Hout; [|discriminate].
    destruct (estimator_train _ _ _ _ d); simpl in Hout; [|discriminate].
    injection Hout as <- <- _. split; [reflexivity | exact Hs]. }
  destruct Hcat as [-> Hsel].
  exists fa, fb, sub, predictor.
  split; [reflexivity|]. split; [reflexivity|]. split; [exact Hout|].
  split.
  { rewrite (select_columns_labels _ _ _ Hsel). apply concat_labels. }
  split; [apply cached_frame_fitted|].
  split; [reflexivity|]. split; [reflexivity|]. split; [reflexivity|].
  split; [reflexivity|].
  intros j g Hj. simpl. rewrite lookup_app_l; [exact Hj|].
  now apply lookup_lt_Some with g.
Qed.

(** X14. [fit] and [partial_fit] start from scratch: the model and the
    cached table they leave are determined by the two tables and the
    mixer's settings, whatever model and cache the mixer had before: no
    earlier training carries over. *)
Theorem refit_forgets_earlier_training (a b : EncodedDs) (w1 w2 w1' : World) :
  same_settings (self w1) (self w2) ->
  frame_of (heap w1) a = frame_of (heap w2) a ->
  frame_of (heap w1) b = frame_of (heap w2) b ->
  (fit a b w1 = Some (tt, w1') ->
   exists w2',
     fit a b w2 = Some (tt, w2')
     /\ model (self w2') = model (self w1')
     /\ cached_frame w2' = cached_frame w1')
  /\ (partial_fit a b w1 = Some (tt, w1') ->
      exists w2',
        partial_fit a b w2 = Some (tt, w2')
        /\ model (self w2') = model (self w1')
        /\ cached_frame w2' = cached_frame w1').
Proof.
  intros Hset Ha Hb.
  assert (Hfit : forall x y, frame_of (heap w1) x = frame_of (heap w2) x ->
                 frame_of (heap w1) y = frame_of (heap w2) y ->
                 forall v1, fit x y w1 = Some (tt, v1) ->
                 exists v2, fit x y w2 = Some (tt, v2)
                   /\ model (self v2) = model (self v1)
                   /\ cached_frame v2 = cached_frame v1
                   /\ heap v2 = heap w2 ++ drop (length (heap w1)) (heap v1)).
  { intros x y Hx Hy v1. rewrite !fit_equation, <- Hx, <- Hy.
    destruct (frame_of (heap w1) x) as [fx|]; simpl; [|discriminate].
    destruct (frame_of (heap w1) y) as [fy|]; simpl; [|discriminate].
    rewrite <- (fit_outcome_settings _ _ fx fy Hset).
    destruct (fit_outcome (self w1) fx fy) as [[[cat sub] predictor]|];
      simpl; [|discriminate].
    intros [= <-]. eexists. split; [reflexivity|].
    split; [reflexivity|]. split; [now rewrite !cached_frame_fitted|].
    simpl. now rewrite drop_app_length. }
  split.
  - intros Hrun. destruct (Hfit a b Ha Hb _ Hrun) as (v2 & H2 & Hm & Hc & _).
    exists v2. repeat split; assumption.
  - unfold partial_fit. run.
    change {| heap := heap w1; self := set_hyperparam_search false (self w1);
              logged := logged w1 |} with (search_off w1).
    change {| heap := heap w2; self := set_hyperparam_search false (self w2);
              logged := logged w2 |} with (search_off w2).
    rewrite !fit_search_off.
    destruct (fit b a w1) as [[[] v1]|] eqn:Hrun; [|discriminate].
    destruct (Hfit b a Hb Ha _ Hrun) as (v2 & H2 & Hm & Hc & _).
    rewrite H2. intros [= <-]. eexists. split; [reflexivity|].
    split; [exact Hm|]. exact Hc.
Qed.

End FitEffects.

(** X13 on a fit of [sales] against itself. *)
Lemma fit_caches_train_then_dev_sales :
  exists sub,
    cached_frame
      (fitted_world (Examples.fresh None) (concat Examples.sales Examples.sales)
         Examples.sales_twice_plain (Pandas.flat_predictor 2))
    = Some sub
    /\ map label (rows sub) = [0; 1; 3; 4; 0; 1; 3; 4].
Proof.
  destruct (@fit_caches_train_then_dev Examples.hourly (Encoded 0) (Encoded 0)
              (Examples.fresh None)
              (fitted_world (Examples.fresh None)
                 (concat Examples.sales Examples.sales)
                 Examples.sales_twice_plain (Pandas.flat_predictor 2)))
    as (fa & fb & sub & predictor & Hfa & Hfb & _ & Hlabels & Hcache & _).
  - vm_compute. reflexivity.
  - simpl in Hfa, Hfb. injection Hfa as <-. injection Hfb as <-.
    exists sub. split; [exact Hcache | exact Hlabels].
Defined.

(** X14 on a fresh mixer and on one that was trained before. *)
Lemma refit_forgets_earlier_training_sales :
  exists w2',
    @fit Examples.hourly (Encoded 0) (Encoded 0) Examples.refitting = Some (tt, w2')
    /\ cached_frame w2' = Some Examples.sales_twice_plain.
Proof.
  destruct (@refit_forgets_earlier_training Examples.hourly (Encoded 0) (Encoded 0)
              (Examples.fresh None) Examples.refitting
              (fitted_world (Examples.fresh None)
                 (concat Examples.sales Examples.sales)
                 Examples.sales_twice_plain (Pandas.flat_predictor 2)))
    as [Hfit _].
  - repeat split.
  - reflexivity.
  - reflexivity.
  - destruct Hfit as (w2' & Hrun & _ & Hcache); [vm_compute; reflexivity|].
    exists w2'. split; [exact Hrun|]. rewrite Hcache.
    apply cached_frame_fitted.
Defined.

(* ===================================================================== *)
(** * More on [__call__]                                                  *)
(* ===================================================================== *)

Section CallEdges.
Context `{Backend}.

(** The frame of a concatenation is the concatenation of the frames of
    its parts. *)
Lemma frame_of_concated h arr :
  frame_of h (ConcatedEncodedDs arr)
  = (fs ← mapM (frame_of h) arr; concat_all fs).
Proof. reflexivity. Qed.

(** A frame an encoded dataset denotes is still denoted after further
    allocations. *)
Lemma frame_of_prefix (h h' : list Frame) :
  h `prefix_of` h' ->
  forall ds f, frame_of h ds = Some f -> frame_of h' ds = Some f.
Proof.
  intros [k ->]. fix IH 1. intros [l|arr] f.
  - simpl. intros Hl. rewrite lookup_app_l; [exact Hl|].
    now apply lookup_lt_Some with f.
  - rewrite !frame_of_concated.
    assert (Hparts : forall fs, mapM (frame_of h) arr = Some fs ->
                     mapM (frame_of (h ++ k)) arr = Some fs).
    { clear f. induction arr as [|d arr IHarr]; intros fs; simpl; [trivial|].
      destruct (frame_of h d) as [fd|] eqn:Hd; simpl; [|discriminate].
      rewrite (IH d fd Hd). simpl.
      destruct (mapM (frame_of h) arr) as [fs'|]; simpl; [|discriminate].
      now rewrite (IHarr fs' eq_refl). }
    destruct (mapM (frame_of h) arr) as [fs|]; simpl; [|discriminate].
    now rewrite (Hparts fs eq_refl).
Qed.

Lemma concat_rows_length a b :
  length (rows (concat a b)) = (length (rows a) + length (rows b))%nat.
Proof. unfold concat. simpl. now rewrite length_app, !length_map. Qed.

Lemma fold_concat_length fs f0 :
  length (rows (fold_left concat fs f0))
  = (length (rows f0) + foldr Nat.add 0 (map (fun f => length (rows f)) fs))%nat.
Proof.
  revert f0. induction fs as [|f fs IH]; intros f0; simpl; [lia|].
  rewrite IH, concat_rows_length. lia.
Qed.

Lemma lengths_of_parts h arr fs :
  mapM (frame_of h) arr = Some fs ->
  encoded_ds_lenghts h arr = Some (map (fun f => length (rows f)) fs).
Proof.
  unfold encoded_ds_lenghts, len.
  revert fs. induction arr as [|d arr IH]; intros fs; simpl.
  - now intros [= <-].
  - destruct (frame_of h d) as [fd|]; simpl; [|discriminate].
    destruct (mapM (frame_of h) arr) as [fs'|]; simpl; [|discriminate].
    intros [= <-]. now rewrite (IH fs' eq_refl).
Qed.

(** The lengths of the parts of a concatenation add up to the number of
    rows of its frame. *)
Lemma call_length h arr f :
  frame_of h (ConcatedEncodedDs arr) = Some f ->
  exists ls,
    encoded_ds_lenghts h arr = Some ls
    /\ foldr Nat.add 0%nat ls = length (rows f).
Proof.
  rewrite frame_of_concated.
  destruct (mapM (frame_of h) arr) as [fs|] eqn:Hfs; simpl; [|discriminate].
  rewrite (lengths_of_parts _ _ _ Hfs).
  destruct fs as [|f0 fs]; simpl; [discriminate|].
  intros [= <-]. eexists. split; [reflexivity|].
  now rewrite fold_concat_length.
Qed.

(** [__call__] up to its loop, as one equation. *)
Lemma call_equation ds args w f :
  frame_of (heap w) ds = Some f ->
  __call__ ds args w
  = match groups_of (self w) f with
    | Some groups =>
        call_loop ds groups (conf_of args)
                  (map (blank_row (conf_of args)) (rows f))
                  (seq 0 (length (rows f))) w
    | None => None
    end.
Proof.
  intros Hf. unfold __call__, call_groups. run.
  assert (Hlen : match ds with
                 | Encoded _ => len (heap w) ds
                 | ConcatedEncodedDs arr =>
                     option_bind _ _ (fun ls => Some (foldr Nat.add 0%nat ls))
                                 (encoded_ds_lenghts (heap w) arr)
                 end = Some (length (rows f))).
  { destruct ds as [l|arr].
    - unfold len. now rewrite Hf.
    - destruct (call_length _ _ _ Hf) as (ls & -> & <-). reflexivity. }
  rewrite Hlen, Hf. case_guard; [|contradiction]. simpl. rewrite ?Hf.
  destruct (groups_of (self w) f); reflexivity.
Qed.

(** X15. A call on a dataset without rows returns an empty frame and
    touches nothing: neither the model nor the cache is consulted (only
    the first group-by column of the input has to exist). *)
Theorem call_on_no_rows (ds : EncodedDs) (args : PredictionArguments)
    (w : World) (f : Frame) (groups : option (list Value)) :
  frame_of (heap w) ds = Some f ->
  rows f = [] ->
  groups_of (self w) f = Some groups ->
  __call__ ds args w = Some ([], w).
Proof.
  intros Hf Hrows Hg. rewrite (call_equation _ _ _ _ Hf), Hg, Hrows.
  reflexivity.
Qed.

(** X16. A call on a dataset with at least one row raises when the mixer
    has no model, that is before any [fit]. *)
Theorem call_needs_model (ds : EncodedDs) (args : PredictionArguments)
    (w : World) (f : Frame) :
  frame_of (heap w) ds = Some f ->
  rows f <> [] ->
  model (self w) = None ->
  __call__ ds args w = None.
Proof.
  intros Hf Hrows Hmodel. rewrite (call_equation _ _ _ _ Hf).
  destruct (groups_of (self w) f) as [groups|]; [|reflexivity].
  destruct (rows f) as [|r rs]; [contradiction|].
  simpl. run. unfold call_row. run.
  destruct (input_ds ds groups 0 w) as [[input w1]|] eqn:Hin; [|reflexivity].
  run. destruct (input_ds_grown _ _ _ _ _ _ Hin) as [-> _].
  now rewrite Hmodel.
Qed.

(** X21. A call on a dataset with at least one row raises when the
    model yields no forecast for the datasets it is given: the first
    forecast is taken without a check. *)
Theorem call_needs_a_forecast (ds : EncodedDs) (args : PredictionArguments)
    (w : World) (f : Frame) (predictor : Predictor) :
  frame_of (heap w) ds = Some f ->
  rows f <> [] ->
  model (self w) = Some predictor ->
  (forall input, predictor input = Some [] \/ predictor input = None) ->
  __call__ ds args w = None.
Proof.
  intros Hf Hrows Hmodel Hsilent. rewrite (call_equation _ _ _ _ Hf).
  destruct (groups_of (self w) f) as [groups|]; [|reflexivity].
  destruct (rows f) as [|r rs]; [contradiction|].
  simpl. run. unfold call_row. run.
  destruct (input_ds ds groups 0 w) as [[input w1]|] eqn:Hin; [|reflexivity].
  run. destruct (input_ds_grown _ _ _ _ _ _ Hin) as [-> _].
  rewrite Hmodel. run.
  destruct (Hsilent input) as [-> | ->]; reflexivity.
Qed.

(** X17. The dataset built for row [idx] of a call looks at no row at or
    after position [idx]: two inputs with the same columns and the same
    first [idx] rows give the same dataset (and the same allocations)
    once the groups are fixed. *)
Theorem no_look_ahead (ds1 ds2 : EncodedDs) (f1 f2 : Frame)
    (groups : option (list Value)) (idx : nat) (w : World) :
  frame_of (heap w) ds1 = Some f1 ->
  frame_of (heap w) ds2 = Some f2 ->
  columns f1 = columns f2 ->
  take idx (rows f1) = take idx (rows f2) ->
  input_ds ds1 groups idx w = input_ds ds2 groups idx w.
Proof.
  intros Hf1 Hf2 Hcols Hrows. unfold input_ds, history.
  destruct (decide (idx <> 0%nat)); [|reflexivity].
  run. rewrite Hf1, Hf2. unfold iloc_to. now rewrite Hcols, Hrows.
Qed.

Lemma cached_frame_grown w w2 :
  grown w w2 -> cache_allocated w -> cached_frame w2 = cached_frame w.
Proof.
  intros (Hs & _ & [k Hk]) Halloc. unfold cached_frame, cache_allocated in *.
  rewrite Hs, Hk. destruct (train_cache (self w)) as [c|]; simpl; [|reflexivity].
  now apply lookup_app_l.
Qed.

Lemma prior_grown w w2 groups :
  grown w w2 -> cache_allocated w -> prior w2 groups = prior w groups.
Proof.
  intros (Hs & _ & [k Hk]) Halloc. unfold prior, cache_allocated in *.
  rewrite Hs, Hk.
  destruct (train_cache (self w)) as [c|]; simpl; [|reflexivity].
  now rewrite lookup_app_l.
Qed.

Lemma cache_allocated_grown w w2 :
  grown w w2 -> cache_allocated w -> cache_allocated w2.
Proof.
  intros (Hs & _ & [k Hk]) Halloc. unfold cache_allocated in *.
  rewrite Hs, Hk. destruct (train_cache (self w)); [|exact I].
  rewrite length_app. lia.
Qed.

(** The dataset an inference call builds from a table, as one equation. *)
Lemma inference_dataset v l table groups :
  heap v !! l = Some table ->
  cache_allocated v ->
  fst <$> _make_initial_ds (Some l) false groups v
  = (sub ← select_columns (keep_cols (self v)) table;
     before ← prior v groups;
     build (self v) (sort_index (joined before sub))).
Proof.
  intros Hl Halloc. rewrite make_initial_ds_unfold.
  destruct (select_columns (keep_cols (self v)) table) as [sub|] eqn:Hsub.
  - rewrite (gather_inference _ _ _ _ _ Hl Hsub Halloc). simpl.
    destruct (prior v groups) as [before|]; simpl; [|reflexivity].
    destruct (build (self v) _); reflexivity.
  - unfold gather. run. rewrite Hl. run. now rewrite Hsub.
Qed.

(** The dataset of a row does not depend on what earlier rows allocated. *)
Lemma input_ds_in_grown ds groups idx w wi f :
  grown w wi ->
  frame_of (heap w) ds = Some f ->
  cache_allocated w ->
  fst <$> input_ds ds groups idx wi = fst <$> input_ds ds groups idx w.
Proof.
  intros Hgrown Hf Halloc.
  pose proof Hgrown as (Hs & Hlog & Hp).
  pose proof (frame_of_prefix _ _ Hp _ _ Hf) as Hfi.
  unfold input_ds, history. destruct (decide (idx <> 0%nat)).
  - run. rewrite Hf, Hfi. run.
    set (vi := {| heap := heap wi ++ [iloc_to idx f]; self := self wi;
                  logged := logged wi |}).
    set (v := {| heap := heap w ++ [iloc_to idx f]; self := self w;
                 logged := logged w |}).
    assert (Hv : grown w v) by apply grown_alloc.
    assert (Hvi : grown w vi).
    { apply grown_trans with wi; [exact Hgrown | apply grown_alloc]. }
    rewrite (inference_dataset vi _ (iloc_to idx f)), (inference_dataset v _ (iloc_to idx f)).
    + rewrite (prior_grown _ _ _ Hv Halloc), (prior_grown _ _ _ Hvi Halloc).
      subst v vi. simpl. rewrite Hs. reflexivity.
    + subst v. simpl. rewrite lookup_app_r by lia. now rewrite Nat.sub_diag.
    + now apply cache_allocated_grown with w.
    + subst vi. simpl. rewrite lookup_app_r by lia. now rewrite Nat.sub_diag.
    + now apply cache_allocated_grown with w.
  - run. rewrite !make_initial_ds_cached. unfold from_cache.
    rewrite (cached_frame_grown _ _ Hgrown Halloc), Hs.
    destruct (cached_frame w) as [cache|]; simpl; [|reflexivity].
    destruct (requested (self w) groups cache) as [fr|]; simpl; [|reflexivity].
    destruct (build (self w) fr); reflexivity.
Qed.

(** X18. The rows of a call do not influence one another: every output
    row is the forecast of the dataset built for that row from the state
    the call started in, as if the row were the only one computed. *)
Theorem call_rows_are_independent (ds : EncodedDs) (args : PredictionArguments)
    (w w' : World) (ydf : list OutRow) :
  __call__ ds args w = Some (ydf, w') ->
  cache_allocated w ->
  forall idx r,
    ydf !! idx = Some r ->
    exists f groups row input predictor forecast others,
      frame_of (heap w) ds = Some f
      /\ groups_of (self w) f = Some groups
      /\ rows f !! idx = Some row
      /\ fst <$> input_ds ds groups idx w = Some input
      /\ model (self w) = Some predictor
      /\ predictor input = Some (forecast :: others)
      /\ r = forecast_row forecast (conf_of args)
                          (blank_row (conf_of args) row).
Proof.
  intros Hcall Halloc idx r Hr.
  destruct (call_unfold _ _ _ _ _ Hcall) as (f & groups & Hf & Hg & Hloop).
  destruct (call_loop_spec _ _ _ _ _ _ _ _ Hloop (NoDup_seq _ _))
    as (_ & Hlen & _ & Hrows).
  rewrite length_map in Hlen.
  assert (Hidx : idx ∈ seq 0 (length (rows f))).
  { apply elem_of_seq. apply lookup_lt_Some in Hr. lia. }
  destruct (Hrows idx Hidx)
    as (wi & wi' & input & predictor & forecast & others & r0
        & Hgi & Hinput & Hmodel & Hpred & Hr0 & Hres).
  rewrite Hr in Hres. injection Hres as ->.
  change (map (blank_row (conf_of args)) (rows f))
    with (blank_row (conf_of args) <$> rows f) in Hr0.
  rewrite list_lookup_fmap in Hr0.
  destruct (rows f !! idx) as [row|] eqn:Hrow; [|discriminate].
  injection Hr0 as <-.
  exists f, groups, row, input, predictor, forecast, others.
  split; [exact Hf|]. split; [exact Hg|]. split; [exact Hrow|].
  split.
  { rewrite <- (input_ds_in_grown _ _ _ _ _ _ Hgi Hf Halloc).
    now rewrite Hinput. }
  split; [exact Hmodel|]. split; [exact Hpred | reflexivity].
Qed.

End CallEdges.

(** X15 on an input without rows, before any model exists. *)
Lemma call_on_no_rows_modelless :
  @__call__ Examples.hourly (Encoded 1) {| fixed_confidence := None |}
    Examples.modelless
  = Some ([], Examples.modelless).
Proof.
  apply (@call_on_no_rows Examples.hourly (Encoded 1) _ Examples.modelless
           Examples.no_rows (Some [])); reflexivity.
Defined.

(** X16 on a one-row input, before any model exists. *)
Lemma call_needs_model_modelless :
  @__call__ Examples.hourly (Encoded 2) {| fixed_confidence := None |}
    Examples.modelless
  = None.
Proof.
  apply (@call_needs_model Examples.hourly (Encoded 2) _ Examples.modelless
           Examples.ask_a).
  - reflexivity.
  - discriminate.
  - reflexivity.
Defined.

(** X17 on [sales] and [sales_once], which share their first three rows. *)
Lemma no_look_ahead_sales :
  @input_ds Examples.hourly (Encoded 1) (Some [VStr "a"]) 3 Examples.serving_sales
  = @input_ds Examples.hourly (Encoded 2) (Some [VStr "a"]) 3 Examples.serving_sales.
Proof.
  apply (@no_look_ahead Examples.hourly (Encoded 1) (Encoded 2)
           Examples.sales Examples.sales_once); reflexivity.
Defined.

(** X18 on the call about [ask_a]. *)
Lemma call_rows_are_independent_ask_a :
  exists row input forecast,
    rows Examples.ask_a !! 0%nat = Some row
    /\ fst <$> @input_ds Examples.hourly (Encoded 1) (Some [VStr "a"]) 0
                 Examples.serving_model = Some input
    /\ Examples.answer_a_row
       = forecast_row forecast (9 # 10)%Q (blank_row (9 # 10)%Q row).
Proof.
  destruct (@call_rows_are_independent Examples.hourly (Encoded 1)
              {| fixed_confidence := None |}
              Examples.serving_model Examples.serving_model Examples.answer_a)
    with (idx := 0%nat) (r := Examples.answer_a_row)
    as (f & groups & row & input & predictor & forecast & others
        & Hf & Hg & Hrow & Hin & _ & _ & Hres).
  - vm_compute. reflexivity.
  - unfold cache_allocated. simpl. lia.
  - reflexivity.
  - simpl in Hf. injection Hf as <-.
    vm_compute in Hg. injection Hg as <-.
    exists row, input, forecast.
    split; [exact Hrow|]. split; [exact Hin | exact Hres].
Defined.

(* ===================================================================== *)
(** * More on the encoder registry                                        *)
(* ===================================================================== *)

Section RegistryEdges.
Import Encoders.

Lemma imports_fail (importable : string -> bool) (entries : list (string * string))
    (m : Module) :
  Exists (fun entry => importable (fst entry) = false) entries ->
  exists m',
    foldr (fun '(module, name) rest => seq_ (import_from importable module name) rest)
          (fun m => (m, Some tt)) entries m
    = (m', None).
Proof.
  revert m. induction entries as [|[module name] entries IH]; intros m Hex.
  - inversion Hex.
  - simpl. unfold seq_ at 1. unfold import_from at 1.
    destruct (importable module) eqn:Himp.
    + apply Exists_cons in Hex as [Hhead|Htail];
        [simpl in Hhead; congruence|].
      simpl. now apply IH.
    + eauto.
Qed.

(** X19. The registry has no fallback for its nine unconditional
    imports: when any one of them fails, importing the registry raises. *)
Theorem registry_needs_required_imports (importable : string -> bool) :
  Exists (fun entry => importable (fst entry) = false) required ->
  load importable = None.
Proof.
  intros Hex. unfold load, body. unfold seq_ at 1.
  destruct (imports_fail importable required {| globals := ∅; stdout := [] |} Hex)
    as [m' Hm'].
  now rewrite Hm'.
Qed.

Lemma names_by_cases (with_cesium with_audio : bool) :
  let loaded := load (interpreter with_cesium with_audio) in
  (m ← loaded; Some (bound m "CesiumTsEncoder")) = Some with_cesium
  /\ (m ← loaded; Some (bound m "AmplitudeTsEncoder"))
     = Some (with_cesium && with_audio)
  /\ (m ← loaded; Some (bound m "TsFreshTsEncoder")) = Some true
  /\ (m ← loaded; Some (bound m "BuiltinEncoders")) = Some true
  /\ (m ← loaded; categories m)
     = Some {[ "DateTime"; "Image"; "Numeric"; "Text"; "Categorical";
               "TimeSeries"; "Audio" ]}.
Proof.
  destruct with_cesium, with_audio; cbv zeta; repeat split; compute_done.
Qed.

(** X20. What the loaded module binds.  [CesiumTsEncoder] is a module
    attribute exactly when its own import succeeds, also when the flag is
    false because the audio import failed; [AmplitudeTsEncoder] needs both
    imports, since it is not even tried after a failed first one.  The
    registry always has the same seven categories, [Audio] among them
    even when it is empty. *)
Theorem registry_module_names (importable : string -> bool) :
  Forall (fun entry => importable (fst entry) = true) required ->
  exists m,
    load importable = Some m
    /\ bound m "CesiumTsEncoder" = importable cesium_ts
    /\ bound m "AmplitudeTsEncoder" = importable cesium_ts && importable audio
    /\ bound m "TsFreshTsEncoder" = true
    /\ bound m "BuiltinEncoders" = true
    /\ categories m
       = Some {[ "DateTime"; "Image"; "Numeric"; "Text"; "Categorical";
                 "TimeSeries"; "Audio" ]}.
Proof.
  intros Hreq. rewrite (load_ignores_other_modules _ Hreq).
  pose proof (names_by_cases (importable cesium_ts) (importable audio)) as Hm.
  cbv zeta in Hm.
  destruct (load _) as [m|]; simpl in Hm.
  - exists m. split; [reflexivity|].
    destruct Hm as (H1 & H2 & H3 & H4 & H5).
    injection H1 as H1. injection H2 as H2. injection H3 as H3.
    injection H4 as H4.
    split; [exact H1|]. split; [exact H2|]. split; [exact H3|].
    split; [exact H4 | exact H5].
  - destruct Hm as [Hm _]. discriminate Hm.
Qed.

End RegistryEdges.

(** X19 in an interpreter without the numeric encoder. *)
Lemma registry_needs_required_imports_numeric :
  Encoders.load Examples.without_numeric = None.
Proof.
  apply (registry_needs_required_imports Examples.without_numeric).
  unfold Encoders.required.
  do 3 apply Exists_cons_tl. apply Exists_cons_hd. reflexivity.
Defined.

(** X20 in an interpreter that has [cesium_ts] but lacks [audio]. *)
Lemma registry_module_names_without_audio :
  exists m,
    Encoders.load (Encoders.interpreter true false) = Some m
    /\ bound m "CesiumTsEncoder" = true
    /\ bound m "AmplitudeTsEncoder" = false.
Proof.
  destruct (registry_module_names (Encoders.interpreter true false))
    as (m & Hm & Hc & Ha & _).
  - unfold Encoders.required. repeat constructor.
  - exists m. split; [exact Hm|]. split; [exact Hc | exact Ha].
Defined.

(** X21 with a model that forecasts nothing. *)
Lemma call_needs_a_forecast_silent :
  @__call__ Examples.hourly (Encoded 1) {| fixed_confidence := None |}
    Examples.silent_model
  = None.
Proof.
  apply (@call_needs_a_forecast Examples.hourly (Encoded 1) _
           Examples.silent_model Examples.ask_a (fun _ => Some [])).
  - reflexivity.
  - discriminate.
  - reflexivity.
  - intros input. left. reflexivity.
Defined.
